(** * examples/optimize_type.py: constrained optimisation of a character type

    A shallow embedding of [optimize_type] (examples/optimize_type.py,
    lines 16-83) and the properties of its training loop: the rounding
    of the iteration count, the checkpoint cadence, the score
    trajectory and the projection of the parameters into their bounds.

    Conventions of the embedding.
    - Python [int]s are [Z]; [%] and [//] are [Z.modulo] and [Z.div]
      (floor, sign of the divisor), and raise on a zero divisor.
    - [np.round(n, -1)] on an integer divides by [10.0], rounds with
      [rint] (ties to even) and multiplies by [10.0]; [nb_iter / 10] is
      a true division and [int] truncates.  Both are written over [Q];
      the float64 numbers numpy really uses give the same results for
      the counts below 2^53 in absolute value ([exact_count]), and
      the properties of the rounded count are stated for these.
    - A tensor is the flat list of its elements.  The elements are
      taken in a linearly ordered carrier ([Elem]); the order is all
      that [torch.max] and [torch.min] look at.  Not-a-number values
      are outside the model.
    - Exceptions are the left summand of [result].  The exceptions
      modelled are those the function itself can provoke: a zero
      divisor, an index outside the grid of axes, operands of
      different shapes.  The collaborators (the model, the Type, the
      optimizer of torch, the figure) are taken to return; a failure
      inside one of them would end the call with that failure.
    - [lr], [eps] and the scores are elements too.

    The file has four parts: the embedding, the notions the
    properties are stated with and a worked Type over the rationals,
    the lemmas on the projection and on the loop, and the claims
    C1 to C10 with their witnesses and counterexamples. *)

From Stdlib Require Import ZArith QArith Qround List Bool Lia.
Import ListNotations.

Local Open Scope Z_scope.

(** ** Exceptions *)

Inductive exn : Type :=
| ZeroDivisionError   (* [idx % 0] *)
| IndexError          (* [axes[r, i]] outside the 10 x 4 grid *)
| RuntimeError.       (* torch: operands whose shapes do not agree *)

Definition result (A : Type) : Type := (exn + A)%type.

Definition ok {A} (a : A) : result A := inr a.
Definition raise {A} (e : exn) : result A := inl e.

Definition bind {A B} (m : result A) (k : A -> result B) : result B :=
  match m with
  | inl e => inl e
  | inr a => k a
  end.

Notation "x <- m ;; k" := (bind m (fun x => k))
  (at level 61, m at next level, right associativity).

(** ** Python and numpy arithmetic *)

(** [idx % interval] *)
Definition py_mod (a b : Z) : result Z :=
  if b =? 0 then raise ZeroDivisionError else ok (a mod b).

(** [idx // interval] *)
Definition py_floordiv (a b : Z) : result Z :=
  if b =? 0 then raise ZeroDivisionError else ok (a / b).

(** [np.rint]: the nearest integer, a tie going to the even one. *)
Definition rint (x : Q) : Z :=
  let f := Qfloor x in
  match (x - inject_Z f ?= 1 # 2)%Q with
  | Lt => f
  | Gt => f + 1
  | Eq => if Z.even f then f else f + 1
  end.

(** [np.round(n, -1)] for an integer [n]:
    [true_divide(n, 10.0)], then [rint], then [multiply(., 10.0)],
    cast back to the integer type.  The three steps are written here
    on exact numbers; numpy takes them in float64, where they give the
    same numbers for the counts of [exact_count] below and other
    numbers beyond. *)
Definition np_round (n : Z) : Z :=
  rint (inject_Z n / inject_Z 10) * 10.

(** [int(x)]: truncation towards zero. *)
Definition py_int (x : Q) : Z :=
  if Qle_bool 0 x then Qfloor x else Qceiling x.

(** [int(nb_iter / 10)] (line 47).  The division is exact here and
    a float64 division in the code; the two agree on what [np_round]
    gives for the counts of [exact_count]. *)
Definition interval_of (nb_iter : Z) : Z :=
  py_int (inject_Z nb_iter / inject_Z 10).

(** The counts on which lines 36 and 47 compute what [np_round] and
    [interval_of] say: those of absolute value below 2^53.  Such a
    count is a float64 as it is; its tenth, rounded to a float64, lies
    on the side of the half-integers where the exact tenth lies, and
    is the exact tenth at a tie; the product by [10.0] and the tenth
    of the rounded count are integers below 2^53 and exact.  From
    2^53 on the float64 steps lose digits (and the cast back to int64
    can overflow), and the code departs from [np_round]. *)
Definition exact_count (n : Z) : Prop := - 2 ^ 53 < n < 2 ^ 53.

(** [range(n)], the indices the [for] loop visits. *)
Definition py_range (n : Z) : list Z :=
  map Z.of_nat (seq 0 (Z.to_nat n)).

(** ** Tensors *)

(** The order on tensor elements.  [le_b x y] is the comparison
    [x <= y] that [torch.max] and [torch.min] perform element by
    element. *)
Class Elem (elem : Type) : Type := {
  le_b : elem -> elem -> bool;
  le_b_total : forall x y, le_b x y = true \/ le_b y x = true;
  le_b_trans : forall x y z,
      le_b x y = true -> le_b y z = true -> le_b x z = true
}.

(** A tensor, as the flat list of its elements. *)
Definition tensor (elem : Type) : Type := list elem.

Section Tensors.
Context {elem : Type} {E : Elem elem}.

(** One element of [torch.max(a, b)]: [b] where [a < b], else [a]. *)
Definition elem_max (a b : elem) : elem := if le_b b a then a else b.

(** One element of [torch.min(a, b)]: [b] where [b < a], else [a]. *)
Definition elem_min (a b : elem) : elem := if le_b a b then a else b.

(** An element-wise binary operation on two tensors of one shape.
    Broadcasting is not modelled: torch also accepts some operands of
    different shapes (a bound of one element, say), where this
    function raises, and two tensors of one size can differ in their
    dimensions, which a flat list does not show.  On operands of one
    shape, which is what a Type provides ([well_shaped]), this is
    what torch computes. *)
Fixpoint pointwise (f : elem -> elem -> elem) (a b : tensor elem)
  : result (tensor elem) :=
  match a, b with
  | [], [] => ok []
  | x :: a', y :: b' => r <- pointwise f a' b' ;; ok (f x y :: r)
  | _, _ => raise RuntimeError
  end.

(** [torch.max(param, lb, out=param)]: the new content of [param]. *)
Definition torch_max (param lb : tensor elem) : result (tensor elem) :=
  pointwise elem_max param lb.

(** [torch.min(param, ub, out=param)]: the new content of [param]. *)
Definition torch_min (param ub : tensor elem) : result (tensor elem) :=
  pointwise elem_min param ub.

(** Lines 78-81, for one [param, lb, ub] of the zip. *)
Definition project_param (param : tensor elem) (lb ub : option (tensor elem))
  : result (tensor elem) :=
  p1 <- match lb with
        | Some l => torch_max param l
        | None => ok param
        end ;;
  match ub with
  | Some u => torch_min p1 u
  | None => ok p1
  end.

(** Lines 77-81: [for param, lb, ub in zip(params, lbs, ubs)].  The
    zip ends with its shortest list; the parameters beyond it are not
    visited and keep their values. *)
Fixpoint project (params : list (tensor elem))
         (lbs ubs : list (option (tensor elem)))
  : result (list (tensor elem)) :=
  match params, lbs, ubs with
  | p :: ps, lb :: lbs', ub :: ubs' =>
      p' <- project_param p lb ub ;;
      ps' <- project ps lbs' ubs' ;;
      ok (p' :: ps')
  | _, _, _ => ok params
  end.

(** The projection as the specification words it: element by element
    [min(max(x, lb), ub)], an absent bound being the identity. *)
Definition clamp_spec (x : elem) (lb ub : option elem) : elem :=
  let y := match lb with Some l => elem_max x l | None => x end in
  match ub with Some u => elem_min y u | None => y end.

(** Element [j] of the bound of a parameter, when the bound exists. *)
Definition bound_at (b : option (tensor elem)) (j : nat) : option elem :=
  match b with
  | Some t => nth_error t j
  | None => None
  end.

(** A bound, when present, has the shape of its parameter. *)
Definition bound_fits (p : tensor elem) (b : option (tensor elem)) : bool :=
  match b with
  | Some t => Nat.eqb (length t) (length p)
  | None => true
  end.

(** The invariant of a Type: along the zip, every bound that is
    present has the shape of its parameter. *)
Fixpoint well_shaped (params : list (tensor elem))
         (lbs ubs : list (option (tensor elem)))
  : bool :=
  match params, lbs, ubs with
  | p :: ps, lb :: lbs', ub :: ubs' =>
      bound_fits p lb && bound_fits p ub && well_shaped ps lbs' ubs'
  | _, _, _ => true
  end.

(** Every element of [p] is at or above the matching element of [lb]. *)
Definition above (p : tensor elem) (lb : tensor elem) : Prop :=
  forall j x l, nth_error p j = Some x -> nth_error lb j = Some l ->
                le_b l x = true.

(** Every element of [p] is at or below the matching element of [ub]. *)
Definition below (p : tensor elem) (ub : tensor elem) : Prop :=
  forall j x u, nth_error p j = Some x -> nth_error ub j = Some u ->
                le_b x u = true.

(** Every parameter with a lower bound lies at or above it. *)
Definition respects_lower (params : list (tensor elem))
           (lbs : list (option (tensor elem)))
  : Prop :=
  forall i p lb, nth_error params i = Some p ->
                 nth_error lbs i = Some (Some lb) -> above p lb.

(** Every parameter with an upper bound lies at or below it. *)
Definition respects_upper (params : list (tensor elem))
           (ubs : list (option (tensor elem)))
  : Prop :=
  forall i p ub, nth_error params i = Some p ->
                 nth_error ubs i = Some (Some ub) -> below p ub.

End Tensors.

(** ** The collaborators *)

Section Optimizer.
Context {elem : Type} {E : Elem elem}.
Context {token image rng : Type}.

(** Modelled from the spec: [pybpl.model.CharacterModel] is not among
    the sources.  The specification gives the model as a capability
    set: a differentiable scalar score of a Type, a token sampled
    from a Type and an image rendered from a token.  The score and
    its gradient read the parameters of the Type; the two samplers
    read their argument and draw from the random generator, and have
    no other effect. *)
Record CharacterModel : Type := {
  (* [model.score_type(c).item()] *)
  score_type : list (tensor elem) -> elem;
  (* the gradients [loss.backward()] leaves on the parameters,
     for [loss = -model.score_type(c)] *)
  loss_grad : list (tensor elem) -> list (tensor elem);
  (* [model.sample_token(c)] *)
  sample_token : list (tensor elem) -> rng -> token * rng;
  (* [model.sample_image(token)] *)
  sample_image : token -> rng -> image * rng
}.

(** Modelled from the spec: [pybpl.objects.CharacterType] is not among
    the sources.  The specification gives a Type as an ordered list
    of parameters and, for a tolerance, two lists of bounds, each
    entry a tensor or absent ([None]). *)
Record CharacterType : Type := {
  parameters : list (tensor elem);
  lbs : elem -> list (option (tensor elem));
  ubs : elem -> list (option (tensor elem))
}.

(** [torch.optim.Adam]: its state (the learning rate, the two moment
    accumulators and the step counter), its constructor
    [Adam(params, lr=lr)] and [optimizer.step()], which updates every
    parameter in place from its gradient and never changes a shape. *)
Record Adam : Type := {
  adam_state : Type;
  adam_init : list (tensor elem) -> elem -> adam_state;
  adam_step : adam_state -> list (tensor elem) -> list (tensor elem) ->
              list (tensor elem) * adam_state;
  adam_step_shape : forall st ps gs,
      map (@length elem) (fst (adam_step st ps gs)) = map (@length elem) ps
}.

Variable torch_optim_Adam : Adam.

(** ** The state of a run *)

(** What a call reads and writes: the parameter storage of the Type
    (shared by [c], [params] and the optimizer), the optimizer state,
    [score_list], the lines printed, the random generator, and the
    figure: the images drawn, by grid cell, and the row labels. *)
Record world : Type := mkWorld {
  w_params : list (tensor elem);
  w_optim : adam_state torch_optim_Adam;
  w_scores : list elem;
  w_stdout : list Z;
  w_rng : rng;
  w_images : list (Z * Z * image);
  w_ylabels : list (Z * Z)
}.

(** [axes[r, i]] on the 10 x 4 array of axes: the cell addressed, a
    negative index counting from the end. *)
Definition axes_index (r i : Z) : result (Z * Z) :=
  if (-10 <=? r) && (r <? 10) && (-4 <=? i) && (i <? 4)
  then ok (if r <? 0 then r + 10 else r, if i <? 0 then i + 4 else i)
  else raise IndexError.

Variable model : CharacterModel.

(** Lines 55-64, the body of [for i in range(4)]. *)
Definition show_token (idx interval i : Z) (w : world) : result world :=
  let (tok, g1) := sample_token model (w_params w) (w_rng w) in
  let (img, g2) := sample_image model tok g1 in
  row <- py_floordiv idx interval ;;
  cell <- axes_index row i ;;
  ok (mkWorld (w_params w) (w_optim w) (w_scores w) (w_stdout w) g2
              (w_images w ++ [(fst cell, snd cell, img)]) (w_ylabels w)).

(** A [for] loop over a list of indices. *)
Fixpoint for_each (body : Z -> world -> result world) (idxs : list Z)
         (w : world) : result world :=
  match idxs with
  | [] => ok w
  | i :: rest => w' <- body i w ;; for_each body rest w'
  end.

(** Lines 50-65, the body of [if idx % interval == 0]. *)
Definition checkpoint (show_examples : bool) (idx interval : Z) (w : world)
  : result world :=
  let w0 := mkWorld (w_params w) (w_optim w) (w_scores w)
                    (w_stdout w ++ [idx]) (w_rng w)
                    (w_images w) (w_ylabels w) in
  if show_examples then
    w1 <- for_each (show_token idx interval) (py_range 4) w0 ;;
    row <- py_floordiv idx interval ;;
    cell <- axes_index row 0 ;;
    ok (mkWorld (w_params w1) (w_optim w1) (w_scores w1) (w_stdout w1)
                (w_rng w1) (w_images w1) (w_ylabels w1 ++ [(fst cell, idx)]))
  else ok w0.

(** Lines 66-81, the part of the loop body that trains: the score of
    the Type as it stands is computed and appended to [score_list],
    then the optimizer steps along the gradient of the loss, then
    every parameter is projected into its bounds. *)
Definition train_step (lbs ubs : list (option (tensor elem))) (w : world)
  : result world :=
  (* optimizer.zero_grad(); score = model.score_type(c) *)
  let score := score_type model (w_params w) in
  (* score_list.append(score.item()) *)
  let scores := w_scores w ++ [score] in
  (* loss = -score; loss.backward(); optimizer.step() *)
  let grads := loss_grad model (w_params w) in
  let (ps, st) := adam_step torch_optim_Adam (w_optim w) (w_params w)
                            grads in
  (* project all parameters into allowable range *)
  ps' <- project ps lbs ubs ;;
  ok (mkWorld ps' st scores (w_stdout w) (w_rng w)
              (w_images w) (w_ylabels w)).

(** Lines 49-81, the body of [for idx in range(nb_iter)]. *)
Definition loop_body (lbs ubs : list (option (tensor elem)))
           (show_examples : bool) (interval idx : Z) (w : world)
  : result world :=
  m <- py_mod idx interval ;;
  w1 <- (if m =? 0 then checkpoint show_examples idx interval w else ok w) ;;
  train_step lbs ubs w1.

(** The state in which the loop starts (lines 38-46): the parameters
    and the bounds of [c], a fresh optimizer, an empty [score_list],
    an empty figure. *)
Definition init_world (c : CharacterType) (lr : elem) (g : rng) : world :=
  mkWorld (parameters c) (adam_init torch_optim_Adam (parameters c) lr)
          [] [] g [] [].

(** The state after the first [k] iterations of the loop of a call. *)
Definition iterations (c : CharacterType) (lr : elem) (nb_iter : Z)
           (eps : elem) (show_examples : bool) (g : rng) (k : nat)
  : result world :=
  let nb_iter := np_round nb_iter in
  let interval := interval_of nb_iter in
  for_each (loop_body (lbs c eps) (ubs c eps) show_examples interval)
           (firstn k (py_range nb_iter))
           (init_world c lr g).

(** [optimize_type(model, c, lr, nb_iter, eps, show_examples)], run
    with the random generator in state [g]: the list returned and
    the state the call leaves behind. *)
Definition optimize_type (c : CharacterType) (lr : elem) (nb_iter : Z)
           (eps : elem) (show_examples : bool) (g : rng)
  : result (list elem * world) :=
  (* round nb_iter to nearest 10 *)
  let nb_iter := np_round nb_iter in
  (* c.train(); params = c.parameters(): the storage [w_params] *)
  let lbs := lbs c eps in
  let ubs := ubs c eps in
  (* score_list = []; optimizer = torch.optim.Adam(params, lr=lr);
     fig, axes = plt.subplots(10, 4): the state [init_world] *)
  let interval := interval_of nb_iter in
  w <- for_each (loop_body lbs ubs show_examples interval)
                (py_range nb_iter)
                (init_world c lr g) ;;
  (* return score_list *)
  ok (w_scores w, w).
End Optimizer.

Arguments w_params {elem image rng torch_optim_Adam} w.
Arguments w_optim {elem image rng torch_optim_Adam} w.
Arguments w_scores {elem image rng torch_optim_Adam} w.
Arguments w_stdout {elem image rng torch_optim_Adam} w.
Arguments w_rng {elem image rng torch_optim_Adam} w.
Arguments w_images {elem image rng torch_optim_Adam} w.
Arguments w_ylabels {elem image rng torch_optim_Adam} w.
Arguments for_each {elem image rng torch_optim_Adam} body idxs w.
Arguments show_token {elem token image rng torch_optim_Adam} model
  idx interval i w.
Arguments checkpoint {elem token image rng torch_optim_Adam} model
  show_examples idx interval w.
Arguments train_step {elem E token image rng torch_optim_Adam} model
  lbs ubs w.
Arguments loop_body {elem E token image rng torch_optim_Adam} model
  lbs ubs show_examples interval idx w.


(** ** The command line *)

Section CommandLine.
Context {elem : Type} {E : Elem elem}.
Context {token image rng : Type}.

(** What [parser.parse_args()] returns (lines 86-95): [--ns] is an
    optional integer, [None] when absent; [--lr] and [--eps] are
    floats with the defaults [1e-3] and [1e-4]; [--nb_iter] is an
    integer with the default [1000]. *)
Record Namespace : Type := {
  arg_ns : option Z;
  arg_lr : elem;
  arg_eps : elem;
  arg_nb_iter : Z
}.

(** Modelled from the spec: [CharacterModel.sample_type] and the
    attributes of the Type it returns are not among the sources.  The
    specification gives the model as producing typed samples, a Type
    having a fixed number of parts and sub-parts.  A sample carries
    the Type with what [main] reads of it: [c.k], and [p.nsub.item()]
    for each [p] of [c.part_types]. *)
Record SampledType : Type := {
  s_type : @CharacterType elem;
  s_k : Z;
  s_nsub : list Z
}.

(** A line of the standard output. *)
Inductive line : Type :=
| NumStrokes (k : Z)               (* 'num strokes: %i' % c.k *)
| NumSubStrokes (nsub : list Z)    (* 'num sub-strokes: ', [...] *)
| Iteration (idx : Z).             (* 'iteration #%i' % idx *)

Variable torch_optim_Adam : @Adam elem.

(** What a run of the script leaves: the lines printed, the series
    given to [plt.plot], and the state [optimize_type] left. *)
Record session : Type := mkSession {
  printed : list line;
  plotted : list elem;
  left_behind : @world elem image rng torch_optim_Adam
}.

(** [main()] (lines 85-115), for the namespace [args] parsed from the
    command line, the model built from the library ([Library()],
    [CharacterModel(lib)]) and the random generator in state [g].
    [optimize_type] is called without its last argument, so with
    [show_examples=True]. *)
Definition main (model : @CharacterModel elem token image rng)
           (sample_type : option Z -> rng -> SampledType * rng)
           (args : Namespace) (g : rng) : result session :=
  (* sample a character type *)
  let (c, g1) := sample_type (arg_ns args) g in
  (* optimize the character type that we sampled *)
  r <- optimize_type torch_optim_Adam model (s_type c) (arg_lr args)
                     (arg_nb_iter args) (arg_eps args) true g1 ;;
  let (score_list, w) := r in
  (* plot log-likelihood vs. iteration *)
  ok (mkSession (NumStrokes (s_k c) :: NumSubStrokes (s_nsub c)
                 :: map Iteration (w_stdout w))
                score_list w).
End CommandLine.

Arguments printed {elem image rng torch_optim_Adam} s.
Arguments plotted {elem image rng torch_optim_Adam} s.
Arguments left_behind {elem image rng torch_optim_Adam} s.

(** ** Notions the properties are stated with *)

(** The rounding of a count to tens, on integers: the quotient by ten,
    moved up when the remainder is above 5, or is 5 and the quotient
    is odd. *)
Definition half_even_tens (n : Z) : Z :=
  let q := n / 10 in
  let r := n mod 10 in
  if r <? 5 then q else if 5 <? r then q + 1
  else if Z.even q then q else q + 1.

(** What the diagnostics may touch is the lines printed, the random
    generator and the figure.  [kept w w'] says that [w'] has the
    parameters, the optimizer state and the scores of [w]. *)
Definition kept {elem image rng : Type} {adam : @Adam elem}
           (w w' : @world elem image rng adam) : Prop :=
  w_params w' = w_params w /\ w_optim w' = w_optim w /\
  w_scores w' = w_scores w.

(** Two results that agree on what the training reads and writes. *)
Definition same_training {elem image rng : Type} {adam : @Adam elem}
           (r1 r2 : result (@world elem image rng adam)) : Prop :=
  match r1, r2 with
  | inr a, inr b => kept a b
  | inl e1, inl e2 => e1 = e2
  | _, _ => False
  end.

(** The indices a run visits: none, or, with a positive interval,
    indices below ten intervals. *)
Definition in_run (interval : Z) (idxs : list Z) : Prop :=
  idxs = [] \/
  (0 < interval /\ forall idx, In idx idxs -> 0 <= idx < 10 * interval).

(** A tensor that lies, element by element, at or below another of
    the same shape. *)
Definition tensor_le {elem : Type} {E : Elem elem} (p q : tensor elem)
  : Prop :=
  Forall2 (fun x y => le_b x y = true) p q.

(** The same for two lists of parameters. *)
Definition params_le {elem : Type} {E : Elem elem}
           (ps qs : list (tensor elem)) : Prop :=
  Forall2 tensor_le ps qs.

(** The cells of the grid that have an image, in the order drawn. *)
Definition cells_drawn {elem image rng : Type} {adam : @Adam elem}
           (w : @world elem image rng adam) : list (Z * Z) :=
  map fst (w_images w).

(** ** A worked Type over the rationals

    One scalar parameter kept inside an interval, as in the end-to-end
    scenarios of the specification: the elements are rationals, the
    Type has one parameter of one element, with the bounds
    [lo + eps] and [hi - eps]. *)

Lemma Qle_bool_total (x y : Q) : Qle_bool x y = true \/ Qle_bool y x = true.
Proof.
  destruct (Qlt_le_dec x y) as [H|H].
  - left. apply Qle_bool_iff. now apply Qlt_le_weak.
  - right. now apply Qle_bool_iff.
Qed.

Lemma Qle_bool_trans (x y z : Q) :
  Qle_bool x y = true -> Qle_bool y z = true -> Qle_bool x z = true.
Proof.
  rewrite !Qle_bool_iff. apply Qle_trans.
Qed.

#[export] Instance Elem_Q : Elem Q := {|
  le_b := Qle_bool;
  le_b_total := Qle_bool_total;
  le_b_trans := Qle_bool_trans
|}.

Module Scenario.

(** The sign of a gradient element. *)
Definition sign (d : Q) : Q := inject_Z (Z.sgn (Qnum d)).

(** One tensor under one step of size [lr] against the sign of its
    gradient; an element without a gradient stays. *)
Fixpoint descend (lr : Q) (p g : tensor Q) : tensor Q :=
  match p with
  | [] => []
  | x :: p' =>
      match g with
      | [] => x :: descend lr p' []
      | d :: g' => Qred (x - lr * sign d) :: descend lr p' g'
      end
  end.

Fixpoint descend_all (lr : Q) (ps gs : list (tensor Q)) : list (tensor Q) :=
  match ps with
  | [] => []
  | p :: ps' =>
      match gs with
      | [] => p :: descend_all lr ps' []
      | g :: gs' => descend lr p g :: descend_all lr ps' gs'
      end
  end.

Lemma descend_length (lr : Q) (p g : tensor Q) :
  length (descend lr p g) = length p.
Proof.
  revert g. induction p as [|x p IH]; intro g; [reflexivity|].
  destruct g; simpl; now rewrite IH.
Qed.

Lemma descend_all_shape (lr : Q) (ps gs : list (tensor Q)) :
  map (@length Q) (descend_all lr ps gs) = map (@length Q) ps.
Proof.
  revert gs. induction ps as [|p ps IH]; intro gs; [reflexivity|].
  destruct gs; simpl; now rewrite IH, ?descend_length.
Qed.

(** An optimizer to run the scenarios with: the step Adam takes when
    its numerical-stability constant is taken as 0 and the gradient
    keeps its sign, [lr] against the sign of the gradient, and no move
    where the gradient is zero.  Its state is the learning rate and
    the number of steps taken. *)
Definition sign_adam : @Adam Q := {|
  adam_state := (Q * nat)%type;
  adam_init := fun _ lr => (lr, 0%nat);
  adam_step := fun st ps gs =>
    (descend_all (fst st) ps gs, (fst st, S (snd st)));
  adam_step_shape := fun st ps gs => descend_all_shape (fst st) ps gs
|}.

(** Tokens and images of the scenarios are copies of the parameters
    they were drawn from; the random generator counts its draws. *)
Definition token : Type := list (tensor Q).
Definition image : Type := list (tensor Q).
Definition rng : Type := nat.

(** A model whose score does not depend on the Type: every gradient
    is zero. *)
Definition constant_model (s : Q) : @CharacterModel Q token image rng := {|
  score_type := fun _ => s;
  loss_grad := map (map (fun _ => 0%Q));
  sample_token := fun ps g => (ps, S g);
  sample_image := fun tok g => (tok, S g)
|}.

(** A model whose score is the first element of the first parameter;
    the loss is its opposite, with gradient [-1] there. *)
Definition first_model : @CharacterModel Q token image rng := {|
  score_type := fun ps =>
    match ps with
    | (x :: _) :: _ => x
    | _ => 0%Q
    end;
  loss_grad := fun ps =>
    match ps with
    | (_ :: p) :: ps' =>
        ((-1)%Q :: map (fun _ => 0%Q) p) :: map (map (fun _ => 0%Q)) ps'
    | _ => map (map (fun _ => 0%Q)) ps
    end;
  sample_token := fun ps g => (ps, S g);
  sample_image := fun tok g => (tok, S g)
|}.

(** The Type with one scalar parameter of value [x0], to be kept
    between [lo + eps] and [hi - eps]. *)
Definition interval_type (x0 lo hi : Q) : @CharacterType Q := {|
  parameters := [[x0]];
  lbs := fun eps => [Some [Qred (lo + eps)]];
  ubs := fun eps => [Some [Qred (hi - eps)]]
|}.

(** The namespace of a command line without flags. *)
Definition parser_defaults : @Namespace Q := {|
  arg_ns := None;
  arg_lr := 1 # 1000;
  arg_eps := 1 # 10000;
  arg_nb_iter := 1000
|}.

(** A sampler for the scenarios: the Type with the one parameter
    [1/2] to be kept in the unit interval, of one stroke with one
    sub-stroke unless a number of strokes is asked for. *)
Definition sample_unit_type (k : option Z) (g : rng)
  : @SampledType Q * rng :=
  ({| s_type := interval_type (1 # 2) 0 1;
      s_k := match k with Some n => n | None => 1%Z end;
      s_nsub := [1%Z] |}, S g).

(** A Type whose lower bound has two elements for a parameter of
    one. *)
Definition ill_shaped_type : @CharacterType Q := {|
  parameters := [[1 # 2]];
  lbs := fun _ => [Some [0%Q; 0%Q]];
  ubs := fun _ => [None]
|}.

End Scenario.

(** * Properties *)

(** ** Rounding and the checkpoint interval *)

Lemma rint_tenths (n : Z) :
  rint (inject_Z n / inject_Z 10) = half_even_tens n.
Proof.
  unfold rint, half_even_tens.
  assert (F : Qfloor (inject_Z n / inject_Z 10) = n / 10).
  { unfold Qdiv, Qmult, Qinv, inject_Z, Qfloor; simpl.
    now rewrite Z.mul_1_r. }
  rewrite F.
  assert (C : (inject_Z n / inject_Z 10 - inject_Z (n / 10) ?= 1 # 2)%Q
              = (n mod 10 ?= 5)).
  { unfold Qcompare, Qminus, Qplus, Qopp, Qdiv, Qmult, Qinv, inject_Z; simpl.
    pose proof (Z.div_mod n 10 ltac:(lia)) as D.
    destruct (Z.compare_spec (n mod 10) 5) as [e|l|g].
    - apply Z.compare_eq_iff. lia.
    - apply Z.compare_lt_iff. lia.
    - apply Z.compare_gt_iff. lia. }
  rewrite C.
  destruct (Z.compare_spec (n mod 10) 5) as [e|l|g].
  - rewrite e. reflexivity.
  - destruct (Z.ltb_spec (n mod 10) 5); [reflexivity | lia].
  - destruct (Z.ltb_spec (n mod 10) 5); [lia |].
    destruct (Z.ltb_spec 5 (n mod 10)); [reflexivity | lia].
Qed.

Lemma np_round_tens (n : Z) : np_round n = half_even_tens n * 10.
Proof. unfold np_round. now rewrite rint_tenths. Qed.

Lemma interval_of_tens (k : Z) : interval_of (k * 10) = k.
Proof.
  unfold interval_of, py_int, Qceiling.
  assert (F : forall m, Qfloor (inject_Z (m * 10) / inject_Z 10) = m).
  { intro m. unfold Qdiv, Qmult, Qinv, inject_Z, Qfloor; simpl.
    rewrite Z.mul_1_r. apply Z.div_mul. lia. }
  destruct (Qle_bool 0 (inject_Z (k * 10) / inject_Z 10)).
  - apply F.
  - assert (O : (- (inject_Z (k * 10) / inject_Z 10))%Q
                = (inject_Z (- k * 10) / inject_Z 10)%Q).
    { unfold Qdiv, Qmult, Qinv, Qopp, inject_Z; simpl. f_equal. lia. }
    rewrite O, F. lia.
Qed.

Example np_round_values :
  map np_round [0; 4; 5; 6; 7; 14; 15; 25; 1000; -5; -7; -15]
  = [0; 0; 0; 10; 10; 10; 20; 20; 1000; 0; -10; -20].
Proof. reflexivity. Qed.

Example interval_of_values :
  map interval_of [0; 10; 20; 1000; -10] = [0; 1; 2; 100; -1].
Proof. reflexivity. Qed.

Example py_range_values :
  py_range 3 = [0; 1; 2] /\ py_range 0 = [] /\ py_range (-10) = [].
Proof. repeat split. Qed.

(** ** The projection *)

Example project_inverted_pair :
  project [[1 # 2]; [3 # 1; -2 # 1]] [Some [1%Q]; None]
          [Some [0%Q]; Some [1%Q; 1%Q]]
  = ok [[0%Q]; [1%Q; -2 # 1]].
Proof. reflexivity. Qed.

Example project_stops_with_the_zip :
  project [[5 # 1]; [7 # 1]] [Some [0%Q]; Some [0%Q]] [Some [1%Q]]
  = ok [[1%Q]; [7 # 1]].
Proof. reflexivity. Qed.

Section ProjectionFacts.
Context {elem : Type} {E : Elem elem}.

Lemma le_b_refl (x : elem) : le_b x x = true.
Proof. destruct (le_b_total x x); assumption. Qed.

Lemma elem_max_lower (x l : elem) : le_b l (elem_max x l) = true.
Proof.
  unfold elem_max. destruct (le_b l x) eqn:H; [exact H | apply le_b_refl].
Qed.

Lemma elem_min_upper (y u : elem) : le_b (elem_min y u) u = true.
Proof.
  unfold elem_min. destruct (le_b y u) eqn:H; [exact H | apply le_b_refl].
Qed.

Lemma elem_min_lower (y u l : elem) :
  le_b l y = true -> le_b l u = true -> le_b l (elem_min y u) = true.
Proof. unfold elem_min. intros Hy Hu. destruct (le_b y u); assumption. Qed.

Lemma elem_min_inverted (x l u : elem) :
  le_b l u = false -> elem_min (elem_max x l) u = u.
Proof.
  intro H. unfold elem_min.
  destruct (le_b (elem_max x l) u) eqn:H1; [| reflexivity].
  rewrite (le_b_trans _ _ _ (elem_max_lower x l) H1) in H. discriminate.
Qed.

Lemma pointwise_nth (f : elem -> elem -> elem) (a b r : tensor elem) :
  pointwise f a b = ok r ->
  length r = length a /\ length b = length a /\
  forall j x y, nth_error a j = Some x -> nth_error b j = Some y ->
                nth_error r j = Some (f x y).
Proof.
  revert b r. induction a as [|x a IH]; intros [|y b] r H; simpl in H;
    try discriminate.
  - inversion H; subst. repeat split. intros [|j]; discriminate.
  - destruct (pointwise f a b) as [e|r'] eqn:P; simpl in H; [discriminate|].
    inversion H; subst. destruct (IH _ _ P) as (L1 & L2 & N).
    simpl. repeat split; try congruence.
    intros [|j] x' y' Hx Hy; simpl in *.
    + congruence.
    + now apply N.
Qed.

Lemma pointwise_ok (f : elem -> elem -> elem) (a b : tensor elem) :
  length b = length a -> exists r, pointwise f a b = ok r.
Proof.
  revert b. induction a as [|x a IH]; intros [|y b] L; simpl in L;
    try discriminate.
  - now exists [].
  - destruct (IH b) as [r P]; [congruence|].
    exists (f x y :: r). simpl. now rewrite P.
Qed.

Lemma pointwise_fixed (f : elem -> elem -> elem) (a b : tensor elem) :
  length b = length a ->
  (forall j x y, nth_error a j = Some x -> nth_error b j = Some y ->
                 f x y = x) ->
  pointwise f a b = ok a.
Proof.
  revert b. induction a as [|x a IH]; intros [|y b] L F; simpl in L;
    try discriminate; [reflexivity|].
  simpl. rewrite IH.
  - simpl. now rewrite (F 0%nat x y).
  - congruence.
  - intros j x' y' Hx Hy. exact (F (S j) x' y' Hx Hy).
Qed.

Lemma bound_at_in_range (p t : tensor elem) (j : nat) (x : elem) :
  Nat.eqb (length t) (length p) = true -> nth_error p j = Some x ->
  exists y, nth_error t j = Some y.
Proof.
  intros L Hx. apply Nat.eqb_eq in L.
  destruct (nth_error t j) as [y|] eqn:Ht; [now exists y|].
  apply nth_error_None in Ht.
  assert (j < length p)%nat by (apply nth_error_Some; congruence). lia.
Qed.

Lemma project_param_spec (p : tensor elem) (lb ub : option (tensor elem)) :
  bound_fits p lb = true -> bound_fits p ub = true ->
  exists p', project_param p lb ub = ok p' /\ length p' = length p /\
    forall j x, nth_error p j = Some x ->
      nth_error p' j = Some (clamp_spec x (bound_at lb j) (bound_at ub j)).
Proof.
  intros Hl Hu. unfold project_param.
  assert (S1 : exists p1,
    match lb with Some l => torch_max p l | None => ok p end = ok p1 /\
    length p1 = length p /\
    forall j x, nth_error p j = Some x ->
      nth_error p1 j
      = Some (match bound_at lb j with Some l => elem_max x l | None => x end)).
  { destruct lb as [l|]; simpl in *.
    - destruct (pointwise_ok elem_max p l) as [r P]; [now apply Nat.eqb_eq|].
      exists r. unfold torch_max. split; [exact P|].
      destruct (pointwise_nth _ _ _ _ P) as (L1 & _ & N). split; [exact L1|].
      intros j x Hx. destruct (bound_at_in_range p l j x Hl Hx) as [y Hy].
      rewrite Hy. now apply N.
    - exists p. repeat split. intros j x Hx. exact Hx. }
  destruct S1 as (p1 & -> & L1 & N1). simpl.
  destruct ub as [u|]; simpl in *.
  - destruct (pointwise_ok elem_min p1 u) as [r P].
    { apply Nat.eqb_eq in Hu. congruence. }
    exists r. unfold torch_min. split; [exact P|].
    destruct (pointwise_nth _ _ _ _ P) as (L2 & _ & N). split; [congruence|].
    intros j x Hx. destruct (bound_at_in_range p u j x Hu Hx) as [y Hy].
    unfold clamp_spec. rewrite Hy. apply N; [now apply N1 | exact Hy].
  - exists p1. repeat split; [exact L1|]. intros j x Hx.
    unfold clamp_spec. now apply N1.
Qed.

Lemma project_spec (ps : list (tensor elem))
      (lbs ubs : list (option (tensor elem))) :
  well_shaped ps lbs ubs = true ->
  exists ps', project ps lbs ubs = ok ps' /\
    map (@length elem) ps' = map (@length elem) ps /\
    (forall i p lb ub,
        nth_error ps i = Some p -> nth_error lbs i = Some lb ->
        nth_error ubs i = Some ub ->
        exists p', nth_error ps' i = Some p' /\
          forall j x, nth_error p j = Some x ->
            nth_error p' j
            = Some (clamp_spec x (bound_at lb j) (bound_at ub j))) /\
    (forall i, nth_error lbs i = None \/ nth_error ubs i = None ->
               nth_error ps' i = nth_error ps i).
Proof.
  revert lbs ubs. induction ps as [|p ps IH]; intros lbs ubs W.
  - exists []. simpl. repeat split.
    + intros [|i]; discriminate.
  - destruct lbs as [|lb lbs]; [|destruct ubs as [|ub ubs]].
    + exists (p :: ps). simpl. repeat split.
      intros i q lb ub _ H. destruct i; discriminate.
    + exists (p :: ps). simpl. repeat split.
      intros i q lb' ub _ _ H. destruct i; discriminate.
    + simpl in W. apply andb_prop in W as [W W3].
      apply andb_prop in W as [W1 W2].
      destruct (project_param_spec p lb ub W1 W2) as (p' & P & L & N).
      destruct (IH lbs ubs W3) as (ps' & Q & M & A & B).
      exists (p' :: ps'). simpl. rewrite P; simpl. rewrite Q; simpl.
      repeat split.
      * congruence.
      * intros [|i] q l u Hq Hl Hu; simpl in *.
        -- inversion Hq; inversion Hl; inversion Hu; subst.
           exists p'. split; [reflexivity | exact N].
        -- exact (A i q l u Hq Hl Hu).
      * intros [|i] H; simpl in *.
        -- destruct H; discriminate.
        -- exact (B i H).
Qed.

Lemma well_shaped_shapes (ps qs : list (tensor elem))
      (lbs ubs : list (option (tensor elem))) :
  map (@length elem) ps = map (@length elem) qs ->
  well_shaped ps lbs ubs = well_shaped qs lbs ubs.
Proof.
  revert qs lbs ubs. induction ps as [|p ps IH]; intros [|q qs] lbs ubs M;
    simpl in M; try discriminate; [reflexivity|].
  inversion M as [[L M']]. destruct lbs as [|lb lbs]; [reflexivity|].
  destruct ubs as [|ub ubs]; [reflexivity|]. simpl.
  rewrite (IH qs lbs ubs M').
  destruct lb, ub; simpl; now rewrite ?L.
Qed.

Lemma nth_error_same_length {A B} (l : list A) (l' : list B) (i : nat) (x : A) :
  length l' = length l -> nth_error l i = Some x ->
  exists y, nth_error l' i = Some y.
Proof.
  intros L H. destruct (nth_error l' i) as [y|] eqn:N; [now exists y|].
  apply nth_error_None in N.
  assert (i < length l)%nat by (apply nth_error_Some; congruence). lia.
Qed.

Lemma shapes_nth (ps qs : list (tensor elem)) (i : nat) (p q : tensor elem) :
  map (@length elem) ps = map (@length elem) qs ->
  nth_error ps i = Some p -> nth_error qs i = Some q -> length p = length q.
Proof.
  intros M Hp Hq.
  apply (map_nth_error (@length elem)) in Hp, Hq. congruence.
Qed.

(** Every element of a projected parameter is the clamp of the element
    it replaces. *)
Lemma project_elem (ps ps' : list (tensor elem))
      (lbs ubs : list (option (tensor elem))) :
  well_shaped ps lbs ubs = true ->
  length lbs = length ps -> length ubs = length ps ->
  project ps lbs ubs = ok ps' ->
  forall i p' j x', nth_error ps' i = Some p' -> nth_error p' j = Some x' ->
    exists p lb ub x,
      nth_error ps i = Some p /\ nth_error lbs i = Some lb /\
      nth_error ubs i = Some ub /\ nth_error p j = Some x /\
      x' = clamp_spec x (bound_at lb j) (bound_at ub j).
Proof.
  intros W Ll Lu P i p' j x' Hp' Hx'.
  destruct (project_spec ps lbs ubs W) as (qs & P' & M & A & _).
  assert (qs = ps') by (unfold ok in *; congruence). subst qs.
  assert (L : length ps = length ps').
  { pose proof (f_equal (@length nat) M) as ML.
    rewrite !length_map in ML. now symmetry. }
  destruct (nth_error_same_length ps' ps i p' L Hp') as [p Hp].
  destruct (nth_error_same_length ps lbs i p Ll Hp) as [lb Hlb].
  destruct (nth_error_same_length ps ubs i p Lu Hp) as [ub Hub].
  destruct (A i p lb ub Hp Hlb Hub) as (q & Hq & N).
  assert (q = p') by congruence. subst q.
  assert (Lp : length p = length p')
    by (symmetry; eapply shapes_nth; eassumption).
  destruct (nth_error_same_length p' p j x' Lp Hx') as [x Hx].
  exists p, lb, ub, x. repeat split; try assumption.
  specialize (N j x Hx). congruence.
Qed.

End ProjectionFacts.

(** ** The loop *)

Lemma py_range_In (n idx : Z) : In idx (py_range n) -> 0 <= idx < n.
Proof.
  unfold py_range. intro H. apply in_map_iff in H as (i & <- & H).
  apply in_seq in H. lia.
Qed.

Lemma py_range_length (n : Z) : length (py_range n) = Z.to_nat n.
Proof. unfold py_range. now rewrite length_map, length_seq. Qed.

Lemma py_range_nth (n : Z) (k : nat) :
  (k < Z.to_nat n)%nat -> nth_error (py_range n) k = Some (Z.of_nat k).
Proof.
  intro H. unfold py_range. rewrite nth_error_map, nth_error_seq.
  destruct (Nat.ltb_spec k (Z.to_nat n)); [reflexivity | lia].
Qed.

Lemma firstn_snoc {A} (l : list A) (k : nat) (x : A) :
  nth_error l k = Some x -> firstn (S k) l = firstn k l ++ [x].
Proof.
  revert k. induction l as [|y l IH]; intros [|k] H; simpl in H;
    try discriminate.
  - now inversion H.
  - cbn [firstn app]. f_equal. now apply IH.
Qed.

Lemma nth_error_of_snoc {A} (l : list A) (k : nat) (s : A) :
  (k < length l)%nat -> firstn (S k) l = firstn k l ++ [s] ->
  nth_error l k = Some s.
Proof.
  intros Hk H. destruct (nth_error l k) as [x|] eqn:N.
  - rewrite (firstn_snoc l k x N) in H. apply app_inv_head in H. congruence.
  - apply nth_error_None in N. lia.
Qed.

Lemma py_mod_ok (a b : Z) : b <> 0 -> py_mod a b = ok (a mod b).
Proof. intro H. unfold py_mod. now destruct (Z.eqb_spec b 0). Qed.

Lemma py_floordiv_ok (a b : Z) : b <> 0 -> py_floordiv a b = ok (a / b).
Proof. intro H. unfold py_floordiv. now destruct (Z.eqb_spec b 0). Qed.

Lemma checkpoint_row (idx interval : Z) :
  0 < interval -> 0 <= idx < 10 * interval -> 0 <= idx / interval < 10.
Proof.
  intros Hi Hx. split.
  - apply Z.div_pos; lia.
  - apply Z.div_lt_upper_bound; lia.
Qed.

Section LoopFacts.
Context {elem : Type} {E : Elem elem}.
Context {token image rng : Type}.
Variable torch_optim_Adam : @Adam elem.
Variable model : @CharacterModel elem token image rng.

Let world : Type := @world elem image rng torch_optim_Adam.

Lemma for_each_app (body : Z -> world -> result world) (l1 l2 : list Z)
      (w : world) :
  for_each body (l1 ++ l2) w
  = (w' <- for_each body l1 w ;; for_each body l2 w').
Proof.
  revert w. induction l1 as [|i l1 IH]; intro w; simpl; [reflexivity|].
  destruct (body i w) as [e|w']; simpl; [reflexivity | apply IH].
Qed.

Lemma kept_refl (w : world) : kept w w.
Proof. now repeat split. Qed.

Lemma kept_trans (w1 w2 w3 : world) : kept w1 w2 -> kept w2 w3 -> kept w1 w3.
Proof.
  unfold kept. intros (A & B & C) (A' & B' & C'). repeat split; congruence.
Qed.

Lemma show_token_kept (idx interval i : Z) (w w' : world) :
  show_token model idx interval i w = ok w' ->
  kept w w' /\ w_stdout w' = w_stdout w /\ w_ylabels w' = w_ylabels w.
Proof.
  unfold show_token.
  destruct (sample_token model (w_params w) (w_rng w)) as [tok g1].
  destruct (sample_image model tok g1) as [img g2].
  destruct (py_floordiv idx interval) as [e|row]; simpl; [discriminate|].
  destruct (axes_index row i) as [e|cell]; simpl; [discriminate|].
  intro H. inversion H; subst. unfold kept. simpl. now repeat split.
Qed.

Lemma axes_index_ok (r i : Z) :
  0 <= r < 10 -> 0 <= i < 4 -> axes_index r i = ok (r, i).
Proof.
  intros Hr Hi. unfold axes_index.
  destruct (Z.leb_spec (-10) r); [|lia]. destruct (Z.ltb_spec r 10); [|lia].
  destruct (Z.leb_spec (-4) i); [|lia]. destruct (Z.ltb_spec i 4); [|lia].
  simpl. destruct (Z.ltb_spec r 0); [lia|]. destruct (Z.ltb_spec i 0); [lia|].
  reflexivity.
Qed.

Lemma show_token_ok (idx interval i : Z) (w : world) :
  0 < interval -> 0 <= idx < 10 * interval -> 0 <= i < 4 ->
  exists w', show_token model idx interval i w = ok w'.
Proof.
  intros Hi Hx Hc. unfold show_token.
  destruct (sample_token model (w_params w) (w_rng w)) as [tok g1].
  destruct (sample_image model tok g1) as [img g2].
  rewrite py_floordiv_ok by lia. simpl.
  rewrite axes_index_ok by (auto using checkpoint_row). simpl.
  eexists. reflexivity.
Qed.

Lemma show_tokens_kept (idx interval : Z) (cols : list Z) (w w' : world) :
  for_each (show_token model idx interval) cols w = ok w' ->
  kept w w' /\ w_stdout w' = w_stdout w /\ w_ylabels w' = w_ylabels w.
Proof.
  revert w. induction cols as [|i cols IH]; intros w H; simpl in H.
  - inversion H; subst. split; [apply kept_refl | now split].
  - destruct (show_token model idx interval i w) as [e|w1] eqn:S; simpl in H;
      [discriminate|].
    apply show_token_kept in S as (K1 & O1 & Y1).
    apply IH in H as (K2 & O2 & Y2).
    split; [eapply kept_trans; eassumption | split; congruence].
Qed.

Lemma show_tokens_ok (idx interval : Z) (cols : list Z) (w : world) :
  0 < interval -> 0 <= idx < 10 * interval ->
  (forall i, In i cols -> 0 <= i < 4) ->
  exists w', for_each (show_token model idx interval) cols w = ok w'.
Proof.
  intros Hi Hx. revert w. induction cols as [|i cols IH]; intros w Hc; simpl.
  - now exists w.
  - destruct (show_token_ok idx interval i w Hi Hx) as [w1 S].
    { apply Hc. now left. }
    rewrite S. simpl. apply IH. intros j Hj. apply Hc. now right.
Qed.

Lemma checkpoint_kept (show : bool) (idx interval : Z) (w w' : world) :
  checkpoint model show idx interval w = ok w' ->
  kept w w' /\ w_stdout w' = w_stdout w ++ [idx].
Proof.
  unfold checkpoint. destruct show.
  - destruct (for_each _ _ _) as [e|w1] eqn:F; simpl; [discriminate|].
    apply show_tokens_kept in F as ((A & B & C) & O & Y). simpl in *.
    destruct (py_floordiv idx interval) as [e|row]; simpl; [discriminate|].
    destruct (axes_index row 0) as [e|cell]; simpl; [discriminate|].
    intro H. inversion H; subst. unfold kept. simpl. now repeat split.
  - intro H. inversion H; subst. unfold kept. simpl. now repeat split.
Qed.

Lemma checkpoint_ok (show : bool) (idx interval : Z) (w : world) :
  0 < interval -> 0 <= idx < 10 * interval ->
  exists w', checkpoint model show idx interval w = ok w'.
Proof.
  intros Hi Hx. unfold checkpoint. destruct show; [|eexists; reflexivity].
  destruct (show_tokens_ok idx interval (py_range 4)
              (mkWorld torch_optim_Adam (w_params w) (w_optim w) (w_scores w)
                       (w_stdout w ++ [idx]) (w_rng w) (w_images w)
                       (w_ylabels w)) Hi Hx) as [w1 F].
  { intros i Hin. apply py_range_In in Hin. lia. }
  rewrite F. simpl. rewrite py_floordiv_ok by lia. simpl.
  rewrite axes_index_ok by (auto using checkpoint_row; lia). simpl.
  eexists. reflexivity.
Qed.

Lemma checkpoint_ylabels (show : bool) (idx interval : Z) (w w' : world) :
  0 < interval -> 0 <= idx < 10 * interval ->
  checkpoint model show idx interval w = ok w' ->
  w_ylabels w'
  = w_ylabels w ++ (if show then [(idx / interval, idx)] else []).
Proof.
  intros Hi Hx. unfold checkpoint. destruct show.
  - destruct (for_each _ _ _) as [e|w1] eqn:F; simpl; [discriminate|].
    apply show_tokens_kept in F as (_ & _ & Y). simpl in Y.
    rewrite py_floordiv_ok by lia. simpl.
    rewrite axes_index_ok by (auto using checkpoint_row; lia). simpl.
    intro H. inversion H; subst. simpl. now rewrite Y.
  - intro H. inversion H; subst. simpl. now rewrite app_nil_r.
Qed.

Variables lbs ubs : list (option (tensor elem)).

Lemma train_step_inv (w w' : world) :
  train_step model lbs ubs w = ok w' ->
  w_scores w' = w_scores w ++ [score_type model (w_params w)] /\
  w_stdout w' = w_stdout w /\ w_ylabels w' = w_ylabels w /\
  project (fst (adam_step torch_optim_Adam (w_optim w) (w_params w)
                          (loss_grad model (w_params w)))) lbs ubs
  = ok (w_params w').
Proof.
  unfold train_step.
  destruct (adam_step _ _ _ _) as [ps st]. simpl.
  destruct (project ps lbs ubs) as [e|ps']; simpl; [discriminate|].
  intro H. inversion H; subst. simpl. now repeat split.
Qed.

Lemma train_step_ok (w : world) :
  well_shaped (w_params w) lbs ubs = true ->
  exists w', train_step model lbs ubs w = ok w' /\
    map (@length elem) (w_params w') = map (@length elem) (w_params w).
Proof.
  intro W. unfold train_step.
  pose proof (adam_step_shape torch_optim_Adam (w_optim w) (w_params w)
                (loss_grad model (w_params w))) as S.
  destruct (adam_step _ _ _ _) as [ps st]. simpl in S.
  rewrite <- (well_shaped_shapes _ _ lbs ubs S) in W.
  destruct (project_spec ps lbs ubs W) as (ps' & P & M & _).
  rewrite P. simpl. eexists. split; [reflexivity|]. simpl. congruence.
Qed.

Lemma train_step_same (w1 w2 : world) :
  kept w1 w2 ->
  same_training (train_step model lbs ubs w1)
                (train_step model lbs ubs w2).
Proof.
  intros (A & B & C). unfold train_step. rewrite A, B, C.
  destruct (adam_step _ _ _ _) as [ps st].
  destruct (project ps lbs ubs) as [e|ps']; simpl;
    [reflexivity | unfold kept; simpl; now repeat split].
Qed.

Lemma loop_body_inv (show : bool) (interval idx : Z) (w w' : world) :
  loop_body model lbs ubs show interval idx w = ok w' ->
  w_scores w' = w_scores w ++ [score_type model (w_params w)] /\
  w_stdout w'
  = w_stdout w ++ (if idx mod interval =? 0 then [idx] else []) /\
  project (fst (adam_step torch_optim_Adam (w_optim w) (w_params w)
                          (loss_grad model (w_params w)))) lbs ubs
  = ok (w_params w').
Proof.
  unfold loop_body, py_mod.
  destruct (interval =? 0); simpl; [discriminate|].
  destruct (idx mod interval =? 0).
  - destruct (checkpoint model show idx interval w) as [e|w1] eqn:C; simpl;
      [discriminate|].
    apply checkpoint_kept in C as ((A & B & S) & O).
    intro T. apply train_step_inv in T as (T1 & T2 & _ & T3).
    rewrite T1, T2, S, O. rewrite A, B in *. now repeat split.
  - simpl. intro T. apply train_step_inv in T as (T1 & T2 & _ & T3).
    rewrite T1, T2, app_nil_r. now repeat split.
Qed.

Lemma loop_body_ok (show : bool) (interval idx : Z) (w : world) :
  0 < interval -> 0 <= idx < 10 * interval ->
  well_shaped (w_params w) lbs ubs = true ->
  exists w', loop_body model lbs ubs show interval idx w = ok w' /\
    map (@length elem) (w_params w') = map (@length elem) (w_params w).
Proof.
  intros Hi Hx W. unfold loop_body. rewrite py_mod_ok by lia. simpl.
  destruct (idx mod interval =? 0).
  - destruct (checkpoint_ok show idx interval w Hi Hx) as [w1 C].
    rewrite C. simpl.
    apply checkpoint_kept in C as ((A & _ & _) & _).
    rewrite <- A in W. destruct (train_step_ok w1 W) as (w' & T & M).
    exists w'. split; [exact T | congruence].
  - simpl. now apply train_step_ok.
Qed.


Variable interval : Z.

Lemma in_run_cons (idx : Z) (idxs : list Z) :
  in_run interval (idx :: idxs) ->
  0 < interval /\ 0 <= idx < 10 * interval /\ in_run interval idxs.
Proof.
  intros [H|(Hi & Hx)]; [discriminate|].
  split; [exact Hi|]. split; [apply Hx; now left|].
  right. split; [exact Hi|]. intros j Hj. apply Hx. now right.
Qed.

Lemma for_each_ok (show : bool) (idxs : list Z) (w : world) :
  in_run interval idxs -> well_shaped (w_params w) lbs ubs = true ->
  exists w',
    for_each (loop_body model lbs ubs show interval) idxs w = ok w' /\
    map (@length elem) (w_params w') = map (@length elem) (w_params w).
Proof.
  revert w. induction idxs as [|idx idxs IH]; intros w R W; simpl.
  - now exists w.
  - apply in_run_cons in R as (Hi & Hx & R).
    destruct (loop_body_ok show interval idx w Hi Hx W) as (w1 & B & M).
    rewrite B. simpl. destruct (IH w1 R) as (w' & F & M').
    + now rewrite (well_shaped_shapes _ _ lbs ubs M).
    + exists w'. split; [exact F | congruence].
Qed.


Lemma for_each_scores (show : bool) (idxs : list Z) (w w' : world) :
  for_each (loop_body model lbs ubs show interval) idxs w = ok w' ->
  exists tail, w_scores w' = w_scores w ++ tail /\ length tail = length idxs.
Proof.
  revert w. induction idxs as [|idx idxs IH]; intros w H; simpl in H.
  - inversion H; subst. exists []. now rewrite app_nil_r.
  - destruct (loop_body model lbs ubs show interval idx w) as [e|w1] eqn:B;
      simpl in H; [discriminate|].
    apply loop_body_inv in B as (S & _). apply IH in H as (tail & T & L).
    exists (score_type model (w_params w) :: tail).
    rewrite T, S, <- app_assoc. simpl. split; [reflexivity | now rewrite L].
Qed.

Lemma for_each_stdout (show : bool) (idxs : list Z) (w w' : world) :
  for_each (loop_body model lbs ubs show interval) idxs w = ok w' ->
  w_stdout w'
  = w_stdout w ++ filter (fun idx => idx mod interval =? 0) idxs.
Proof.
  revert w. induction idxs as [|idx idxs IH]; intros w H; simpl in H.
  - inversion H; subst. simpl. now rewrite app_nil_r.
  - destruct (loop_body model lbs ubs show interval idx w) as [e|w1] eqn:B;
      simpl in H; [discriminate|].
    apply loop_body_inv in B as (_ & O & _). apply IH in H. rewrite H, O.
    simpl. destruct (idx mod interval =? 0); simpl;
      now rewrite <- app_assoc.
Qed.

Lemma loop_body_ylabels (show : bool) (idx : Z) (w w' : world) :
  0 < interval -> 0 <= idx < 10 * interval ->
  loop_body model lbs ubs show interval idx w = ok w' ->
  w_ylabels w'
  = w_ylabels w
    ++ (if show && (idx mod interval =? 0)
        then [(idx / interval, idx)] else []).
Proof.
  intros Hi Hx. unfold loop_body. rewrite py_mod_ok by lia. cbn [bind ok].
  destruct (idx mod interval =? 0).
  - destruct (checkpoint model show idx interval w) as [e|w1] eqn:C;
      cbn [bind]; [discriminate|].
    apply checkpoint_ylabels in C; [|assumption..].
    intro T. apply train_step_inv in T as (_ & _ & Y & _).
    rewrite Y, C. now destruct show.
  - simpl. intro T. apply train_step_inv in T as (_ & _ & Y & _).
    now rewrite andb_false_r, app_nil_r.
Qed.

Lemma for_each_ylabels (show : bool) (idxs : list Z) (w w' : world) :
  in_run interval idxs ->
  for_each (loop_body model lbs ubs show interval) idxs w = ok w' ->
  w_ylabels w'
  = w_ylabels w
    ++ map (fun idx => (idx / interval, idx))
           (filter (fun idx => show && (idx mod interval =? 0)) idxs).
Proof.
  revert w. induction idxs as [|idx idxs IH]; intros w R H; simpl in H.
  - inversion H; subst. simpl. now rewrite app_nil_r.
  - apply in_run_cons in R as (Hi & Hx & R).
    destruct (loop_body model lbs ubs show interval idx w) as [e|w1] eqn:B;
      simpl in H; [discriminate|].
    apply loop_body_ylabels in B; [|assumption..].
    apply (IH _ R) in H. rewrite H, B. simpl.
    destruct (show && (idx mod interval =? 0)); simpl;
      now rewrite <- app_assoc.
Qed.

(** The only exception a run can end in is the one torch raises on
    operands of different shapes. *)
Lemma pointwise_raises (f : elem -> elem -> elem) (a b : tensor elem)
      (e : exn) :
  pointwise f a b = raise e -> e = RuntimeError.
Proof.
  revert b. induction a as [|x a IH]; intros [|y b] H; simpl in H;
    try (unfold raise in H; congruence); try discriminate.
  destruct (pointwise f a b) as [e'|r] eqn:P; simpl in H; [|discriminate].
  apply (IH b). unfold raise in *. congruence.
Qed.

Lemma project_raises (ps : list (tensor elem))
      (bl bu : list (option (tensor elem)))
      (e : exn) :
  project ps bl bu = raise e -> e = RuntimeError.
Proof.
  revert bl bu. induction ps as [|p ps IH]; intros bl bu H; [discriminate|].
  destruct bl as [|lb bl]; [discriminate|].
  destruct bu as [|ub bu]; [discriminate|].
  simpl in H. destruct (project_param p lb ub) as [e'|p'] eqn:P; simpl in H.
  - assert (e' = e) by (unfold raise in H; congruence). subst e'.
    unfold project_param in P.
    destruct lb as [l|]; simpl in P.
    + unfold torch_max in P.
      destruct (pointwise elem_max p l) as [e'|p1] eqn:P1; simpl in P.
      * apply (pointwise_raises elem_max p l). rewrite P1. exact P.
      * destruct ub as [u|]; [|discriminate].
        now apply (pointwise_raises elem_min p1 u).
    + destruct ub as [u|]; [|discriminate].
      now apply (pointwise_raises elem_min p u).
  - destruct (project ps bl bu) as [e'|ps'] eqn:Q; simpl in H; [|discriminate].
    apply (IH bl bu). unfold raise in *. congruence.
Qed.

Lemma for_each_raises (show : bool) (idxs : list Z) (w : world) (e : exn) :
  in_run interval idxs ->
  for_each (loop_body model lbs ubs show interval) idxs w = raise e ->
  e = RuntimeError.
Proof.
  revert w. induction idxs as [|idx idxs IH]; intros w R H; simpl in H;
    [discriminate|].
  apply in_run_cons in R as (Hi & Hx & R).
  destruct (loop_body model lbs ubs show interval idx w) as [e'|w1] eqn:B;
    simpl in H; [|now apply (IH w1)].
  assert (e' = e) by (unfold raise in H; congruence). subst e'.
  unfold loop_body in B. rewrite py_mod_ok in B by lia. cbn [bind ok] in B.
  assert (T : exists w1 : world, train_step model lbs ubs w1 = raise e).
  { destruct (idx mod interval =? 0).
    - destruct (checkpoint_ok show idx interval w Hi Hx) as [w1 C].
      rewrite C in B. now exists w1.
    - now exists w. }
  destruct T as [w1 T]. unfold train_step in T.
  destruct (adam_step _ _ _ _) as [ps st].
  destruct (project ps lbs ubs) as [e'|ps'] eqn:P; simpl in T; [|discriminate].
  assert (e' = e) by (unfold raise in T; congruence). subst e'.
  now apply (project_raises ps lbs ubs).
Qed.
End LoopFacts.

(** ** The checkpoints of a run *)

Lemma filter_none {A} (f : A -> bool) (l : list A) :
  (forall x, In x l -> f x = false) -> filter f l = [].
Proof.
  induction l as [|x l IH]; intro H; simpl; [reflexivity|].
  rewrite (H x) by now left. apply IH. intros y Hy. apply H. now right.
Qed.

Lemma multiples_in_block (k : Z) (K m : nat) :
  0 < k -> Z.of_nat K = k ->
  filter (fun idx => idx mod k =? 0) (map Z.of_nat (seq (m * K) K))
  = [Z.of_nat m * k].
Proof.
  intros Hk HK. destruct K as [|K']; [simpl in HK; lia|].
  cbn [seq map filter].
  assert (H0 : Z.of_nat (m * S K') = Z.of_nat m * k) by lia.
  rewrite H0, Z.mod_mul by lia. simpl. f_equal.
  apply filter_none. intros x Hx. apply in_map_iff in Hx as (i & <- & Hi).
  apply in_seq in Hi. apply Z.eqb_neq.
  replace (Z.of_nat i) with ((Z.of_nat i - Z.of_nat m * k) + Z.of_nat m * k)
    by lia.
  rewrite Z.mod_add by lia. rewrite Z.mod_small; lia.
Qed.

Lemma multiples_below (k : Z) (K m : nat) :
  0 < k -> Z.of_nat K = k ->
  filter (fun idx => idx mod k =? 0) (map Z.of_nat (seq 0 (m * K)))
  = map (fun j => Z.of_nat j * k) (seq 0 m).
Proof.
  intros Hk HK. induction m as [|m IH]; [reflexivity|].
  replace (S m * K)%nat with (m * K + K)%nat by lia.
  rewrite seq_app, map_app, filter_app, IH. simpl (0 + m * K)%nat.
  rewrite (multiples_in_block k K m Hk HK).
  replace (S m) with (m + 1)%nat by lia. rewrite seq_app, map_app.
  reflexivity.
Qed.

Lemma checkpoints_of_run (k : Z) :
  0 < k ->
  filter (fun idx => idx mod k =? 0) (py_range (k * 10))
  = map (fun j => j * k) (py_range 10).
Proof.
  intro Hk. unfold py_range.
  replace (Z.to_nat (k * 10)) with (10 * Z.to_nat k)%nat by lia.
  rewrite (multiples_below k (Z.to_nat k) 10 Hk) by lia.
  now rewrite map_map.
Qed.

(** ** Runs of [optimize_type] *)

Lemma np_round_in_run (nb_iter : Z) :
  in_run (interval_of (np_round nb_iter)) (py_range (np_round nb_iter)).
Proof.
  rewrite np_round_tens, interval_of_tens.
  destruct (Z.ltb_spec 0 (half_even_tens nb_iter)) as [H|H].
  - right. split; [exact H|]. intros idx Hin.
    apply py_range_In in Hin. lia.
  - left. unfold py_range.
    now replace (Z.to_nat (half_even_tens nb_iter * 10)) with 0%nat by lia.
Qed.

Lemma in_run_firstn (interval : Z) (k : nat) (idxs : list Z) :
  in_run interval idxs -> in_run interval (firstn k idxs).
Proof.
  intros [->|(Hi & Hx)].
  - left. now destruct k.
  - right. split; [exact Hi|]. intros idx Hin. apply Hx.
    rewrite <- (firstn_skipn k idxs). apply in_or_app. now left.
Qed.

Lemma in_run_skipn (interval : Z) (k : nat) (idxs : list Z) :
  in_run interval idxs -> in_run interval (skipn k idxs).
Proof.
  intros [->|(Hi & Hx)].
  - left. now destruct k.
  - right. split; [exact Hi|]. intros idx Hin. apply Hx.
    rewrite <- (firstn_skipn k idxs). apply in_or_app. now right.
Qed.


Lemma np_round_tie (q : Z) :
  np_round (10 * q + 5) = if Z.even q then 10 * q else 10 * q + 10.
Proof.
  rewrite np_round_tens. unfold half_even_tens.
  replace (10 * q + 5) with (5 + q * 10) by lia.
  rewrite Z.div_add, Z.mod_add by lia.
  change (5 / 10) with 0. change (5 mod 10) with 5.
  change (5 <? 5) with false. cbv iota. rewrite Z.add_0_l.
  destruct (Z.even q); lia.
Qed.

Lemma np_round_nearest (n : Z) :
  np_round n mod 10 = 0 /\ Z.abs (np_round n - n) <= 5.
Proof.
  rewrite np_round_tens. split; [apply Z.mod_mul; lia|].
  unfold half_even_tens.
  pose proof (Z.div_mod n 10 ltac:(lia)) as D.
  pose proof (Z.mod_pos_bound n 10 ltac:(lia)) as B.
  destruct (Z.ltb_spec (n mod 10) 5); [lia|].
  destruct (Z.ltb_spec 5 (n mod 10)); [lia|].
  destruct (Z.even (n / 10)); lia.
Qed.

(** The rounded count of an exact count is an exact count: 2^53 ends
    in the digit 2, so the nearest multiples of ten of the counts next
    to it lie below it. *)
Lemma np_round_exact_count (n : Z) :
  exact_count n -> exact_count (np_round n).
Proof.
  unfold exact_count. intro H.
  destruct (np_round_nearest n) as (_ & A).
  rewrite np_round_tens in *. lia.
Qed.

Section Runs.
Context {elem : Type} {E : Elem elem}.
Context {token image rng : Type}.
Variable adam : @Adam elem.
Variable model : @CharacterModel elem token image rng.
Variable c : @CharacterType elem.
Variables lr eps : elem.
Variable nb_iter : Z.

Let world : Type := @world elem image rng adam.

Lemma optimize_type_unfold (show : bool) (g : rng) :
  optimize_type adam model c lr nb_iter eps show g
  = (w <- iterations adam model c lr nb_iter eps show g
            (Z.to_nat (np_round nb_iter)) ;;
     ok (w_scores w, w)).
Proof.
  unfold optimize_type, iterations.
  rewrite firstn_all2; [reflexivity|]. now rewrite py_range_length.
Qed.

(** A well-shaped Type is optimized without an exception; every
    prefix of the loop ends in a state of the shape of the Type, whose
    scores are the first entries of the final trajectory, and from
    which the remaining iterations lead to the final state. *)
Lemma run_prefixes (show : bool) (g : rng) :
  well_shaped (parameters c) (lbs c eps) (ubs c eps) = true ->
  exists w : world,
    optimize_type adam model c lr nb_iter eps show g = ok (w_scores w, w) /\
    length (w_scores w) = Z.to_nat (np_round nb_iter) /\
    forall k, (k <= Z.to_nat (np_round nb_iter))%nat ->
      exists wk : world,
        iterations adam model c lr nb_iter eps show g k = ok wk /\
        map (@length elem) (w_params wk)
        = map (@length elem) (parameters c) /\
        w_scores wk = firstn k (w_scores w) /\
        for_each (loop_body model (lbs c eps) (ubs c eps) show
                            (interval_of (np_round nb_iter)))
                 (skipn k (py_range (np_round nb_iter))) wk = ok w.
Proof.
  intro W.
  pose proof (np_round_in_run nb_iter) as R.
  set (body := loop_body model (lbs c eps) (ubs c eps) show
                         (interval_of (np_round nb_iter))).
  set (l := py_range (np_round nb_iter)) in *.
  set (w0 := init_world adam c lr g : world).
  assert (P : forall k, (k <= length l)%nat ->
            exists wk w : world,
              for_each body (firstn k l) w0 = ok wk /\
              map (@length elem) (w_params wk)
              = map (@length elem) (parameters c) /\
              length (w_scores wk) = k /\
              for_each body (skipn k l) wk = ok w /\
              for_each body l w0 = ok w /\
              w_scores wk = firstn k (w_scores w)).
  { intros k Hk.
    destruct (for_each_ok adam model (lbs c eps) (ubs c eps) _ show
                (firstn k l) w0 (in_run_firstn _ k l R) W)
      as (wk & Fk & Mk).
    assert (Wk : well_shaped (w_params wk) (lbs c eps) (ubs c eps) = true).
    { now rewrite (well_shaped_shapes _ _ _ _ Mk). }
    destruct (for_each_ok adam model (lbs c eps) (ubs c eps) _ show
                (skipn k l) wk (in_run_skipn _ k l R) Wk)
      as (w & Fw & _).
    exists wk, w. fold body in Fk, Fw.
    destruct (for_each_scores adam model _ _ _ show _ _ _ Fk)
      as (t1 & S1 & L1).
    destruct (for_each_scores adam model _ _ _ show _ _ _ Fw)
      as (t2 & S2 & L2).
    simpl in S1. rewrite length_firstn in L1.
    assert (Lk : length (w_scores wk) = k) by (rewrite S1; lia).
    repeat split; try assumption.
    - rewrite <- (firstn_skipn k l) at 1. rewrite for_each_app, Fk. exact Fw.
    - rewrite S2, firstn_app, Lk, Nat.sub_diag, app_nil_r.
      now rewrite firstn_all2 by lia. }
  destruct (P (length l) (le_n _)) as (wn & w & Fn & _ & Ln & _ & Fw & _).
  exists w. unfold optimize_type. fold l body w0. rewrite Fw. simpl.
  assert (Lw : length (w_scores w) = Z.to_nat (np_round nb_iter)).
  { destruct (for_each_scores adam model _ _ _ show _ _ _ Fw)
      as (t & S & L).
    simpl in S. rewrite S, L. apply py_range_length. }
  repeat split; [exact Lw|].
  intros k Hk. destruct (P k) as (wk & w' & Fk & Mk & _ & Fs & Fw' & Sk).
  { unfold l. rewrite py_range_length. exact Hk. }
  assert (w' = w) by (unfold ok in *; congruence). subst w'.
  exists wk. unfold iterations. fold l body w0. now repeat split.
Qed.

(** Iteration [k] of a run appends the score of the state it starts
    in, and ends in the projection of the parameters its optimizer
    step produces. *)
Lemma iteration_records_then_updates (show : bool) (g : rng) :
  well_shaped (parameters c) (lbs c eps) (ubs c eps) = true ->
  exists w : world,
    optimize_type adam model c lr nb_iter eps show g = ok (w_scores w, w) /\
    length (w_scores w) = Z.to_nat (np_round nb_iter) /\
    forall k, (k < length (w_scores w))%nat ->
      exists wk wk' : world,
        iterations adam model c lr nb_iter eps show g k = ok wk /\
        iterations adam model c lr nb_iter eps show g (S k) = ok wk' /\
        nth_error (w_scores w) k = Some (score_type model (w_params wk)) /\
        project (fst (adam_step adam (w_optim wk) (w_params wk)
                                (loss_grad model (w_params wk))))
                (lbs c eps) (ubs c eps)
        = ok (w_params wk').
Proof.
  intro W.
  destruct (run_prefixes show g W) as (w & R & L & P).
  exists w. split; [exact R|]. split; [exact L|].
  intros k Hk. rewrite L in Hk.
  destruct (P k ltac:(lia)) as (wk & Ik & _ & Sk & _).
  destruct (P (S k) ltac:(lia)) as (wk' & Ik' & _ & Sk' & _).
  exists wk, wk'. split; [exact Ik|]. split; [exact Ik'|].
  unfold iterations in Ik, Ik'.
  rewrite (firstn_snoc _ _ _ (py_range_nth _ _ Hk)) in Ik'.
  rewrite for_each_app, Ik in Ik'. simpl in Ik'.
  destruct (loop_body _ _ _ _ _ _ wk) as [e|w1] eqn:B; simpl in Ik';
    [discriminate|].
  assert (w1 = wk') by (unfold ok in *; congruence). subst w1.
  apply loop_body_inv in B as (S1 & _ & Pr).
  split; [|exact Pr].
  apply nth_error_of_snoc; [lia|]. now rewrite <- Sk, <- Sk'.
Qed.
End Runs.

(** * The claims *)








(** C7.  The projection step leaves a feasible Type as it is: when
    every element of every parameter is at or above its lower bound
    and at or below its upper bound, where these exist, the projection
    returns the parameters unchanged. *)
Theorem projection_fixes_feasible
        {elem : Type} {E : Elem elem} (params : list (tensor elem))
        (lbs ubs : list (option (tensor elem))) :
  well_shaped params lbs ubs = true ->
  respects_lower params lbs -> respects_upper params ubs ->
  project params lbs ubs = ok params.
Proof.
  revert lbs ubs. induction params as [|p ps IH]; intros lbs ubs W Lo Up;
    [reflexivity|].
  destruct lbs as [|lb lbs]; [reflexivity|].
  destruct ubs as [|ub ubs]; [reflexivity|].
  simpl in W. apply andb_prop in W as [W W3]. apply andb_prop in W as [W1 W2].
  assert (P : project_param p lb ub = ok p).
  { unfold project_param.
    assert (P1 : match lb with Some l => torch_max p l | None => ok p end
                 = ok p).
    { destruct lb as [l|]; [|reflexivity]. simpl in W1.
      apply pointwise_fixed; [now apply Nat.eqb_eq|].
      intros j x y Hx Hy. unfold elem_max.
      now rewrite (Lo 0%nat p l eq_refl eq_refl j x y Hx Hy). }
    rewrite P1. simpl.
    destruct ub as [u|]; [|reflexivity]. simpl in W2.
    apply pointwise_fixed; [now apply Nat.eqb_eq|].
    intros j x y Hx Hy. unfold elem_min.
    now rewrite (Up 0%nat p u eq_refl eq_refl j x y Hx Hy). }
  simpl. rewrite P. simpl. rewrite IH; [reflexivity | exact W3 | |].
  - intros i q l Hq Hl. exact (Lo (S i) q l Hq Hl).
  - intros i q u Hq Hu. exact (Up (S i) q u Hq Hu).
Qed.

Lemma projection_fixes_feasible_witness :
  well_shaped [[1 # 2]] [Some [0%Q]] [Some [1%Q]] = true /\
  respects_lower [[1 # 2]] [Some [0%Q]] /\
  respects_upper [[1 # 2]] [Some [1%Q]] /\
  project [[1 # 2]] [Some [0%Q]] [Some [1%Q]] = ok [[1 # 2]].
Proof.
  assert (Lo : respects_lower [[1 # 2]] [Some [0%Q]]).
  { intros [|[|i]] p lb Hp Hb; simpl in Hp, Hb; try discriminate.
    inversion Hp; inversion Hb; subst.
    intros [|[|j]] x l Hx Hl; simpl in Hx, Hl; try discriminate.
    inversion Hx; inversion Hl; subst. reflexivity. }
  assert (Up : respects_upper [[1 # 2]] [Some [1%Q]]).
  { intros [|[|i]] p ub Hp Hb; simpl in Hp, Hb; try discriminate.
    inversion Hp; inversion Hb; subst.
    intros [|[|j]] x u Hx Hu; simpl in Hx, Hu; try discriminate.
    inversion Hx; inversion Hu; subst. reflexivity. }
  split; [reflexivity|]. split; [exact Lo|]. split; [exact Up|].
  apply (projection_fixes_feasible [[1 # 2]] [Some [0%Q]] [Some [1%Q]]);
    [reflexivity | exact Lo | exact Up].
Defined.

(** C4, as the code has it.  The score recorded at index [idx] of the
    trajectory is the score of the Type as it stands when iteration
    [idx] begins, before the Adam update and the projection of that
    iteration; the parameters that this update and projection leave
    are those of the next state. *)
Theorem recorded_score_precedes_update
        {elem : Type} {E : Elem elem} {token image rng : Type}
        (adam : @Adam elem) (model : @CharacterModel elem token image rng)
        (c : @CharacterType elem) (lr : elem) (nb_iter : Z) (eps : elem)
        (show_examples : bool) (g : rng) :
  well_shaped (parameters c) (lbs c eps) (ubs c eps) = true ->
  exists traj w,
    optimize_type adam model c lr nb_iter eps show_examples g = ok (traj, w) /\
    forall idx, (idx < length traj)%nat ->
      exists w_idx w_next,
        iterations adam model c lr nb_iter eps show_examples g idx
        = ok w_idx /\
        iterations adam model c lr nb_iter eps show_examples g (S idx)
        = ok w_next /\
        nth_error traj idx = Some (score_type model (w_params w_idx)) /\
        project (fst (adam_step adam (w_optim w_idx) (w_params w_idx)
                                (loss_grad model (w_params w_idx))))
                (lbs c eps) (ubs c eps)
        = ok (w_params w_next).
Proof.
  intro W.
  destruct (iteration_records_then_updates adam model c lr eps nb_iter
              show_examples g W) as (w & R & _ & P).
  exists (w_scores w), w. split; [exact R | exact P].
Qed.

Lemma recorded_score_precedes_update_witness :
  well_shaped (parameters (Scenario.interval_type (3 # 2) 0 1))
              (lbs (Scenario.interval_type (3 # 2) 0 1) (1 # 10000))
              (ubs (Scenario.interval_type (3 # 2) 0 1) (1 # 10000)) = true /\
  exists traj w,
    optimize_type Scenario.sign_adam Scenario.first_model
                  (Scenario.interval_type (3 # 2) 0 1) (1 # 1000) 10
                  (1 # 10000) true 0%nat = ok (traj, w) /\
    forall idx, (idx < length traj)%nat ->
      exists w_idx w_next,
        iterations Scenario.sign_adam Scenario.first_model
                   (Scenario.interval_type (3 # 2) 0 1) (1 # 1000) 10
                   (1 # 10000) true 0%nat idx = ok w_idx /\
        iterations Scenario.sign_adam Scenario.first_model
                   (Scenario.interval_type (3 # 2) 0 1) (1 # 1000) 10
                   (1 # 10000) true 0%nat (S idx) = ok w_next /\
        nth_error traj idx
        = Some (score_type Scenario.first_model (w_params w_idx)) /\
        project (fst (adam_step Scenario.sign_adam
                                (w_optim w_idx) (w_params w_idx)
                                (loss_grad Scenario.first_model
                                           (w_params w_idx))))
                (lbs (Scenario.interval_type (3 # 2) 0 1) (1 # 10000))
                (ubs (Scenario.interval_type (3 # 2) 0 1) (1 # 10000))
        = ok (w_params w_next).
Proof.
  split; [reflexivity|].
  apply (recorded_score_precedes_update
           Scenario.sign_adam Scenario.first_model
           (Scenario.interval_type (3 # 2) 0 1) (1 # 1000) 10 (1 # 10000)
           true 0%nat); reflexivity.
Defined.

(** C4 as stated fails.  The score is the first element of the one
    parameter, which starts at [3/2] and is to stay within
    [0.0001, 0.9999].  Entry 0 of the trajectory is [3/2], the score
    before the first update; after the update and the projection of
    iteration 0 the parameter is [0.9999] and so is the score. *)
Lemma recorded_score_is_not_the_updated_one :
  exists traj w w1,
    optimize_type Scenario.sign_adam Scenario.first_model
                  (Scenario.interval_type (3 # 2) 0 1) (1 # 1000) 10
                  (1 # 10000) false 0%nat = ok (traj, w) /\
    iterations Scenario.sign_adam Scenario.first_model
               (Scenario.interval_type (3 # 2) 0 1) (1 # 1000) 10
               (1 # 10000) false 0%nat 1 = ok w1 /\
    nth_error traj 0 = Some (3 # 2) /\
    score_type Scenario.first_model (w_params w1) = 9999 # 10000 /\
    ~ (3 # 2 == 9999 # 10000)%Q.
Proof.
  do 3 eexists. split; [vm_compute; reflexivity|].
  split; [vm_compute; reflexivity|].
  split; [reflexivity|]. split; [reflexivity|].
  intro H. discriminate H.
Qed.

(** C5, as the code has it.  With [nb_iter = 7] the rounding step
    yields 10: the loop runs ten times, the trajectory returned has
    ten entries, and the parameters of the Type are those the tenth
    update and projection leave. *)
Theorem seven_rounds_to_ten_iterations
        {elem : Type} {E : Elem elem} {token image rng : Type}
        (adam : @Adam elem) (model : @CharacterModel elem token image rng)
        (c : @CharacterType elem) (lr eps : elem)
        (show_examples : bool) (g : rng) :
  well_shaped (parameters c) (lbs c eps) (ubs c eps) = true ->
  np_round 7 = 10 /\
  exists traj w w9,
    optimize_type adam model c lr 7 eps show_examples g = ok (traj, w) /\
    length traj = 10%nat /\
    iterations adam model c lr 7 eps show_examples g 9 = ok w9 /\
    project (fst (adam_step adam (w_optim w9) (w_params w9)
                            (loss_grad model (w_params w9))))
            (lbs c eps) (ubs c eps)
    = ok (w_params w).
Proof.
  intro W. split; [reflexivity|].
  destruct (iteration_records_then_updates adam model c lr eps 7
              show_examples g W) as (w & R & L & P).
  destruct (P 9%nat) as (w9 & w10 & I9 & I10 & Pr).
  { rewrite L. vm_compute. lia. }
  exists (w_scores w), w, w9. split; [exact R|]. split; [exact L|].
  split; [exact I9|].
  rewrite optimize_type_unfold in R.
  change (Z.to_nat (np_round 7)) with 10%nat in R. rewrite I10 in R.
  assert (w10 = w) by (unfold ok in *; simpl in R; congruence).
  now subst w10.
Qed.

Lemma seven_rounds_to_ten_iterations_witness :
  well_shaped (parameters (Scenario.interval_type (3 # 2) 0 1))
              (lbs (Scenario.interval_type (3 # 2) 0 1) (1 # 10000))
              (ubs (Scenario.interval_type (3 # 2) 0 1) (1 # 10000)) = true /\
  np_round 7 = 10 /\
  exists traj w w9,
    optimize_type Scenario.sign_adam (Scenario.constant_model (-3))
                  (Scenario.interval_type (3 # 2) 0 1) (1 # 1000) 7
                  (1 # 10000) false 0%nat = ok (traj, w) /\
    length traj = 10%nat /\
    iterations Scenario.sign_adam (Scenario.constant_model (-3))
               (Scenario.interval_type (3 # 2) 0 1) (1 # 1000) 7
               (1 # 10000) false 0%nat 9 = ok w9 /\
    project (fst (adam_step Scenario.sign_adam (w_optim w9)
                            (w_params w9)
                            (loss_grad (Scenario.constant_model (-3))
                                       (w_params w9))))
            (lbs (Scenario.interval_type (3 # 2) 0 1) (1 # 10000))
            (ubs (Scenario.interval_type (3 # 2) 0 1) (1 # 10000))
    = ok (w_params w).
Proof.
  split; [reflexivity|].
  apply (seven_rounds_to_ten_iterations
           Scenario.sign_adam (Scenario.constant_model (-3))
           (Scenario.interval_type (3 # 2) 0 1) (1 # 1000) (1 # 10000)
           false 0%nat); reflexivity.
Defined.

(** C5 as stated fails: 7 does not round to 0.  With a constant score
    and the one parameter [3/2] to be kept within [0.0001, 0.9999],
    the call with [nb_iter = 7] returns ten scores and leaves the
    parameter at [0.9999]. *)
Lemma seven_does_not_round_to_zero :
  np_round 7 <> 0 /\
  exists traj w,
    optimize_type Scenario.sign_adam (Scenario.constant_model (-3))
                  (Scenario.interval_type (3 # 2) 0 1) (1 # 1000) 7
                  (1 # 10000) false 0%nat = ok (traj, w) /\
    length traj = 10%nat /\ traj <> [] /\
    w_params w = [[9999 # 10000]] /\
    w_params w <> parameters (Scenario.interval_type (3 # 2) 0 1).
Proof.
  split; [discriminate|].
  do 2 eexists. split; [vm_compute; reflexivity|].
  split; [reflexivity|]. split; [discriminate|].
  split; [reflexivity | discriminate].
Qed.

(** C6.  When the iteration count rounds to zero the checkpoint
    interval is 0, the loop body is not run, and the call returns the
    empty trajectory without an exception: nothing is divided by the
    interval, nothing is printed or drawn, and the parameters are the
    initial ones. *)
Theorem zero_rounded_count_runs_nothing
        {elem : Type} {E : Elem elem} {token image rng : Type}
        (adam : @Adam elem) (model : @CharacterModel elem token image rng)
        (c : @CharacterType elem) (lr : elem) (nb_iter : Z) (eps : elem)
        (show_examples : bool) (g : rng) :
  np_round nb_iter = 0 ->
  interval_of (np_round nb_iter) = 0 /\
  py_range (np_round nb_iter) = [] /\
  exists w,
    optimize_type adam model c lr nb_iter eps show_examples g = ok ([], w) /\
    w_params w = parameters c /\ w_stdout w = [] /\
    w_images w = [] /\ w_ylabels w = [].
Proof.
  intro H. unfold optimize_type. rewrite H.
  split; [reflexivity|]. split; [reflexivity|].
  exists (init_world adam c lr g). simpl. now repeat split.
Qed.

Lemma zero_rounded_count_runs_nothing_witness :
  np_round 4 = 0 /\
  interval_of (np_round 4) = 0 /\
  py_range (np_round 4) = [] /\
  exists w,
    optimize_type Scenario.sign_adam (Scenario.constant_model (-3))
                  (Scenario.interval_type (3 # 2) 0 1) (1 # 1000) 4
                  (1 # 10000) true 0%nat = ok ([], w) /\
    w_params w = parameters (Scenario.interval_type (3 # 2) 0 1) /\
    w_stdout w = [] /\ w_images w = [] /\ w_ylabels w = [].
Proof.
  split; [reflexivity|].
  apply (zero_rounded_count_runs_nothing
           Scenario.sign_adam (Scenario.constant_model (-3))
           (Scenario.interval_type (3 # 2) 0 1) (1 # 1000) 4 (1 # 10000)
           true 0%nat); reflexivity.
Defined.


(** C9.  The count is rounded to a multiple of ten with ties going to
    the even multiple: 5 rounds to 0, and a call with [nb_iter = 5]
    returns the empty trajectory; 15 rounds to 20; a count [10 q + 5]
    rounds down to [10 q] when [q] is even and up to [10 q + 10] when
    [q] is odd.  Away from the ties the result is the nearest multiple
    of ten.  The general statements are for the counts below 2^53 in
    absolute value, where the float64 steps of the rounding are
    exact. *)
Theorem np_round_ties_to_even
        {elem : Type} {E : Elem elem} {token image rng : Type}
        (adam : @Adam elem) (model : @CharacterModel elem token image rng)
        (c : @CharacterType elem) (lr eps : elem)
        (show_examples : bool) (g : rng) (q n : Z) :
  exact_count (10 * q + 5) -> exact_count n ->
  np_round 5 = 0 /\ np_round 15 = 20 /\
  np_round (10 * q + 5) = (if Z.even q then 10 * q else 10 * q + 10) /\
  (np_round n mod 10 = 0 /\ Z.abs (np_round n - n) <= 5) /\
  optimize_type adam model c lr 5 eps show_examples g
  = ok ([], init_world adam c lr g).
Proof.
  intros _ _.
  split; [reflexivity|]. split; [reflexivity|]. split; [|split].
  - apply np_round_tie.
  - apply np_round_nearest.
  - reflexivity.
Qed.

Lemma np_round_ties_to_even_witness :
  exact_count (10 * 2 + 5) /\ exact_count 37 /\
  np_round 5 = 0 /\ np_round 15 = 20 /\
  np_round (10 * 2 + 5) = (if Z.even 2 then 10 * 2 else 10 * 2 + 10) /\
  (np_round 37 mod 10 = 0 /\ Z.abs (np_round 37 - 37) <= 5) /\
  optimize_type Scenario.sign_adam (Scenario.constant_model (-3))
                (Scenario.interval_type (3 # 2) 0 1) (1 # 1000) 5
                (1 # 10000) true 0%nat
  = ok ([], init_world Scenario.sign_adam
                       (Scenario.interval_type (3 # 2) 0 1)
                       (1 # 1000) 0%nat).
Proof.
  split; [unfold exact_count; lia|]. split; [unfold exact_count; lia|].
  apply (np_round_ties_to_even
           Scenario.sign_adam (Scenario.constant_model (-3))
           (Scenario.interval_type (3 # 2) 0 1) (1 # 1000) (1 # 10000)
           true 0%nat 2 37); unfold exact_count; lia.
Defined.

(** C10.  When the count (a count below 2^53 in absolute value, where
    the float64 steps of lines 36 and 47 are exact) rounds to a
    positive multiple of ten, every checkpoint iteration [idx] (one with [idx mod interval = 0], the
    interval being a tenth of the rounded count) has
    [idx div interval] below 10, so no access to the grid of ten rows
    is out of bounds: a run can only end in the exception torch raises
    on ill-shaped operands, and on a well-shaped Type it ends
    normally.  It has exactly ten checkpoints: the iterations
    [0, interval, ..., 9 * interval] are announced, and with the
    diagnostics they label the rows 0 to 9 in this order. *)
Theorem checkpoints_fill_the_ten_rows
        {elem : Type} {E : Elem elem} {token image rng : Type}
        (adam : @Adam elem) (model : @CharacterModel elem token image rng)
        (c : @CharacterType elem) (lr : elem) (nb_iter : Z) (eps : elem)
        (show_examples : bool) (g : rng) :
  well_shaped (parameters c) (lbs c eps) (ubs c eps) = true ->
  exact_count nb_iter ->
  0 < np_round nb_iter ->
  (forall idx, In idx (py_range (np_round nb_iter)) ->
               idx mod interval_of (np_round nb_iter) = 0 ->
               0 <= idx / interval_of (np_round nb_iter) < 10) /\
  (forall e, optimize_type adam model c lr nb_iter eps show_examples g
             = raise e -> e = RuntimeError) /\
  exists traj w,
    optimize_type adam model c lr nb_iter eps show_examples g = ok (traj, w) /\
    length (w_stdout w) = 10%nat /\
    w_stdout w
    = map (fun j => j * interval_of (np_round nb_iter)) (py_range 10) /\
    w_ylabels w
    = if show_examples
      then map (fun j => (j, j * interval_of (np_round nb_iter))) (py_range 10)
      else [].
Proof.
  intros W _ Hpos.
  pose proof (np_round_in_run nb_iter) as R.
  assert (Hi : 0 < interval_of (np_round nb_iter)).
  { rewrite np_round_tens in *. rewrite interval_of_tens. lia. }
  assert (HN : np_round nb_iter = interval_of (np_round nb_iter) * 10).
  { rewrite np_round_tens at 1. rewrite np_round_tens, interval_of_tens.
    reflexivity. }
  split; [|split].
  - intros idx Hin _. apply py_range_In in Hin.
    apply checkpoint_row; lia.
  - intros e H. unfold optimize_type in H.
    destruct (for_each _ _ _) as [e'|w] eqn:F; simpl in H; [|discriminate].
    assert (e' = e) by (unfold raise in H; congruence). subst e'.
    exact (for_each_raises adam model _ _ _ _ _ _ e R F).
  - destruct (run_prefixes adam model c lr eps nb_iter show_examples g W)
      as (w & Run & _ & _).
    exists (w_scores w), w. split; [exact Run|].
    unfold optimize_type in Run.
    destruct (for_each _ _ _) as [e'|w'] eqn:F; simpl in Run; [discriminate|].
    assert (w' = w) by (unfold ok in Run; congruence). subst w'.
    pose proof (for_each_stdout adam model _ _ _ _ _ _ _ F) as O.
    pose proof (for_each_ylabels adam model _ _ _ _ _ _ _ R F) as Y.
    simpl in O, Y.
    set (iv := interval_of (np_round nb_iter)) in *. clearbody iv.
    rewrite HN in O, Y. rewrite (checkpoints_of_run _ Hi) in O.
    split; [now rewrite O, length_map, py_range_length|].
    split; [exact O|].
    rewrite Y. destruct show_examples.
    + simpl andb. rewrite (checkpoints_of_run _ Hi), map_map.
      apply map_ext. intro j. now rewrite Z.div_mul by lia.
    + simpl andb. now rewrite filter_none.
Qed.

Lemma checkpoints_fill_the_ten_rows_witness :
  well_shaped (parameters (Scenario.interval_type (3 # 2) 0 1))
              (lbs (Scenario.interval_type (3 # 2) 0 1) (1 # 10000))
              (ubs (Scenario.interval_type (3 # 2) 0 1) (1 # 10000)) = true /\
  exact_count 24 /\
  0 < np_round 24 /\
  (forall idx, In idx (py_range (np_round 24)) ->
               idx mod interval_of (np_round 24) = 0 ->
               0 <= idx / interval_of (np_round 24) < 10) /\
  (forall e, optimize_type Scenario.sign_adam Scenario.first_model
                           (Scenario.interval_type (3 # 2) 0 1) (1 # 1000) 24
                           (1 # 10000) true 0%nat
             = raise e -> e = RuntimeError) /\
  exists traj w,
    optimize_type Scenario.sign_adam Scenario.first_model
                  (Scenario.interval_type (3 # 2) 0 1) (1 # 1000) 24
                  (1 # 10000) true 0%nat = ok (traj, w) /\
    length (w_stdout w) = 10%nat /\
    w_stdout w = map (fun j => j * interval_of (np_round 24)) (py_range 10) /\
    w_ylabels w
    = map (fun j => (j, j * interval_of (np_round 24))) (py_range 10).
Proof.
  split; [reflexivity|]. split; [unfold exact_count; lia|].
  split; [reflexivity|].
  apply (checkpoints_fill_the_ten_rows
           Scenario.sign_adam Scenario.first_model
           (Scenario.interval_type (3 # 2) 0 1) (1 # 1000) 24 (1 # 10000)
           true 0%nat); [reflexivity | unfold exact_count; lia | reflexivity].
Defined.

(** * Further properties of [optimize_type] *)

(** ** The rounded count *)

Lemma half_even_tens_monotone (n m : Z) :
  n <= m -> half_even_tens n <= half_even_tens m.
Proof.
  intro H. unfold half_even_tens.
  pose proof (Z.div_mod n 10 ltac:(lia)) as Dn.
  pose proof (Z.div_mod m 10 ltac:(lia)) as Dm.
  pose proof (Z.mod_pos_bound n 10 ltac:(lia)) as Bn.
  pose proof (Z.mod_pos_bound m 10 ltac:(lia)) as Bm.
  destruct (Z.eq_dec (n / 10) (m / 10)) as [e|ne].
  - rewrite <- e in *.
    destruct (Z.ltb_spec (n mod 10) 5), (Z.ltb_spec (m mod 10) 5),
             (Z.ltb_spec 5 (n mod 10)), (Z.ltb_spec 5 (m mod 10));
      destruct (Z.even (n / 10)); lia.
  - assert (n / 10 + 1 <= m / 10) by lia.
    destruct (n mod 10 <? 5), (5 <? n mod 10), (Z.even (n / 10)),
             (m mod 10 <? 5), (5 <? m mod 10), (Z.even (m / 10)); lia.
Qed.

Lemma half_even_tens_low (n : Z) : n <= 5 -> half_even_tens n <= 0.
Proof.
  intro H. unfold half_even_tens.
  pose proof (Z.div_mod n 10 ltac:(lia)) as D.
  pose proof (Z.mod_pos_bound n 10 ltac:(lia)) as B.
  destruct (Z.ltb_spec (n mod 10) 5); [lia|].
  destruct (Z.ltb_spec 5 (n mod 10)); [lia|].
  destruct (Z.eq_dec (n / 10) 0) as [e|ne]; [now rewrite e|].
  destruct (Z.even (n / 10)); lia.
Qed.

Lemma half_even_tens_high (n : Z) : 6 <= n -> 1 <= half_even_tens n.
Proof.
  intro H. unfold half_even_tens.
  pose proof (Z.div_mod n 10 ltac:(lia)) as D.
  pose proof (Z.mod_pos_bound n 10 ltac:(lia)) as B.
  destruct (Z.ltb_spec (n mod 10) 5); [lia|].
  destruct (Z.ltb_spec 5 (n mod 10)); [lia|].
  destruct (Z.eq_dec (n / 10) 0) as [e|ne]; [lia|].
  destruct (Z.even (n / 10)); lia.
Qed.

Lemma np_round_tens_fixed (q : Z) : np_round (10 * q) = 10 * q.
Proof.
  rewrite np_round_tens. unfold half_even_tens.
  replace (10 * q) with (0 + q * 10) by lia.
  rewrite Z.div_add, Z.mod_add by lia.
  change (0 / 10) with 0. change (0 mod 10) with 0.
  change (0 <? 5) with true. cbv iota. lia.
Qed.

(** X1.  For counts below 2^53 in absolute value, where the float64
    steps of the rounding are exact: a count that is a multiple of ten
    is run as it is; the rounded count is again such a count, and
    rounding it once more changes nothing; rounding keeps the order of
    two counts; and the call iterates at all exactly for the counts
    from 6 on, then at least ten times. *)
Theorem np_round_fixes_tens_and_is_monotone (q n m : Z) :
  exact_count (10 * q) -> exact_count n -> exact_count m ->
  np_round (10 * q) = 10 * q /\
  exact_count (np_round n) /\
  np_round (np_round n) = np_round n /\
  (n <= m -> np_round n <= np_round m) /\
  (np_round n <= 0 <-> n <= 5) /\
  (10 <= np_round n <-> 6 <= n).
Proof.
  intros _ Hn _.
  split; [apply np_round_tens_fixed|].
  split; [now apply np_round_exact_count|]. split; [|split; [|split]].
  - rewrite (np_round_tens n).
    replace (half_even_tens n * 10) with (10 * half_even_tens n) by lia.
    apply np_round_tens_fixed.
  - intro H. rewrite !np_round_tens.
    pose proof (half_even_tens_monotone n m H). lia.
  - rewrite np_round_tens. split; intro H.
    + destruct (Z.le_gt_cases n 5) as [L|G]; [exact L|].
      pose proof (half_even_tens_high n ltac:(lia)). lia.
    + pose proof (half_even_tens_low n H). lia.
  - rewrite np_round_tens. split; intro H.
    + destruct (Z.le_gt_cases 6 n) as [L|G]; [exact L|].
      pose proof (half_even_tens_low n ltac:(lia)). lia.
    + pose proof (half_even_tens_high n H). lia.
Qed.

Lemma np_round_fixes_tens_and_is_monotone_witness :
  exact_count (10 * 100) /\ exact_count 994 /\ exact_count 1006 /\
  np_round (10 * 100) = 10 * 100 /\
  exact_count (np_round 994) /\
  np_round (np_round 994) = np_round 994 /\
  (994 <= 1006 -> np_round 994 <= np_round 1006) /\
  (np_round 994 <= 0 <-> 994 <= 5) /\
  (10 <= np_round 994 <-> 6 <= 994).
Proof.
  split; [unfold exact_count; lia|]. split; [unfold exact_count; lia|].
  split; [unfold exact_count; lia|].
  apply (np_round_fixes_tens_and_is_monotone 100 994 1006);
    unfold exact_count; lia.
Defined.

(** ** Exceptions and counts without iterations *)

(** X2.  For every count below 2^53 in absolute value, every index
    the loop visits and every state, the checkpoint test and the
    checkpoint block (lines 49-65) end normally, with or without the
    diagnostics and whatever the Type: the interval is not zero, so
    [idx % interval] raises no [ZeroDivisionError]; the row
    [idx // interval] is one of the ten rows, so no access to the grid
    raises an [IndexError]; and the block leaves the parameters, the
    optimizer state and the scores as they are. *)
Theorem checkpoint_block_never_fails
        {elem : Type} {E : Elem elem} {token image rng : Type}
        (adam : @Adam elem) (model : @CharacterModel elem token image rng)
        (nb_iter : Z) (show_examples : bool) (idx : Z)
        (w : @world elem image rng adam) :
  exact_count nb_iter ->
  In idx (py_range (np_round nb_iter)) ->
  py_mod idx (interval_of (np_round nb_iter))
  = ok (idx mod interval_of (np_round nb_iter)) /\
  0 <= idx / interval_of (np_round nb_iter) < 10 /\
  exists w',
    checkpoint model show_examples idx (interval_of (np_round nb_iter)) w
    = ok w' /\
    kept w w' /\ w_stdout w' = w_stdout w ++ [idx].
Proof.
  intros _ Hin.
  destruct (np_round_in_run nb_iter) as [Hnil|(Hi & Hx)].
  - rewrite Hnil in Hin. destruct Hin.
  - specialize (Hx idx Hin).
    split; [apply py_mod_ok; lia|].
    split; [now apply checkpoint_row|].
    destruct (checkpoint_ok adam model show_examples idx _ w Hi Hx)
      as [w' C].
    exists w'. split; [exact C|]. now apply checkpoint_kept in C.
Qed.

Lemma checkpoint_block_never_fails_witness :
  exact_count 24 /\
  In 4 (py_range (np_round 24)) /\
  py_mod 4 (interval_of (np_round 24))
  = ok (4 mod interval_of (np_round 24)) /\
  0 <= 4 / interval_of (np_round 24) < 10 /\
  exists w' : @world Q Scenario.image Scenario.rng Scenario.sign_adam,
    checkpoint Scenario.first_model true 4 (interval_of (np_round 24))
               (init_world Scenario.sign_adam Scenario.ill_shaped_type
                           (1 # 1000) 0%nat)
    = ok w' /\
    kept (init_world Scenario.sign_adam Scenario.ill_shaped_type
                     (1 # 1000) 0%nat) w' /\
    w_stdout w'
    = @w_stdout Q Scenario.image Scenario.rng Scenario.sign_adam
                (init_world Scenario.sign_adam Scenario.ill_shaped_type
                            (1 # 1000) 0%nat) ++ [4].
Proof.
  assert (Hin : In 4 (py_range (np_round 24))).
  { vm_compute. do 4 right. now left. }
  split; [unfold exact_count; lia|]. split; [exact Hin|].
  apply (checkpoint_block_never_fails
           Scenario.sign_adam Scenario.first_model 24 true 4
           (init_world Scenario.sign_adam Scenario.ill_shaped_type
                       (1 # 1000) 0%nat));
    [unfold exact_count; lia | exact Hin].
Defined.

(** X3.  A count of 5 or less, a negative one included, rounds to a
    multiple of ten that is not positive: [range] is empty, the call
    returns the empty list and leaves the Type, the output and the
    figure as they were, whatever the shapes of the bounds. *)
Theorem small_counts_run_nothing
        {elem : Type} {E : Elem elem} {token image rng : Type}
        (adam : @Adam elem) (model : @CharacterModel elem token image rng)
        (c : @CharacterType elem) (lr : elem) (nb_iter : Z) (eps : elem)
        (show_examples : bool) (g : rng) :
  nb_iter <= 5 ->
  optimize_type adam model c lr nb_iter eps show_examples g
  = ok ([], init_world adam c lr g).
Proof.
  intro H. unfold optimize_type, py_range.
  assert (L : np_round nb_iter <= 0).
  { rewrite np_round_tens. pose proof (half_even_tens_low nb_iter H). lia. }
  now replace (Z.to_nat (np_round nb_iter)) with 0%nat by lia.
Qed.

Lemma small_counts_run_nothing_witness :
  -17 <= 5 /\
  optimize_type Scenario.sign_adam (Scenario.constant_model 0)
                Scenario.ill_shaped_type (1 # 1000) (-17) (1 # 10000)
                true 0%nat
  = ok ([], init_world Scenario.sign_adam Scenario.ill_shaped_type
                       (1 # 1000) 0%nat).
Proof.
  split; [lia|].
  apply (small_counts_run_nothing
           Scenario.sign_adam (Scenario.constant_model 0)
           Scenario.ill_shaped_type (1 # 1000) (-17) (1 # 10000)
           true 0%nat).
  lia.
Defined.

(** ** More on the projection *)

Section ClampFacts.
Context {elem : Type} {E : Elem elem}.

Lemma clamp_spec_idem (x : elem) (lb ub : option elem) :
  clamp_spec (clamp_spec x lb ub) lb ub = clamp_spec x lb ub.
Proof.
  unfold clamp_spec. destruct lb as [l|], ub as [u|].
  - destruct (le_b l u) eqn:O.
    + assert (L : le_b l (elem_min (elem_max x l) u) = true)
        by (apply elem_min_lower; [apply elem_max_lower | exact O]).
      unfold elem_max at 1. rewrite L.
      unfold elem_min at 1. now rewrite elem_min_upper.
    + rewrite (elem_min_inverted x l u O).
      unfold elem_max at 1. rewrite O. unfold elem_min. now rewrite O.
  - unfold elem_max at 1. now rewrite elem_max_lower.
  - unfold elem_min at 1. now rewrite elem_min_upper.
  - reflexivity.
Qed.

Lemma clamp_spec_choice (x : elem) (lb ub : option elem) :
  clamp_spec x lb ub = x \/ lb = Some (clamp_spec x lb ub) \/
  ub = Some (clamp_spec x lb ub).
Proof.
  unfold clamp_spec, elem_min, elem_max.
  destruct lb as [l|], ub as [u|]; repeat
    match goal with
    | |- context [if ?b then _ else _] => destruct b
    end; auto.
Qed.

Lemma clamp_spec_inside (x : elem) (lb ub : option elem) :
  (forall l, lb = Some l -> le_b l x = true) ->
  (forall u, ub = Some u -> le_b x u = true) ->
  clamp_spec x lb ub = x.
Proof.
  intros Hl Hu. unfold clamp_spec.
  assert (M : match lb with Some l => elem_max x l | None => x end = x).
  { destruct lb as [l|]; [|reflexivity].
    unfold elem_max. now rewrite (Hl l eq_refl). }
  rewrite M. destruct ub as [u|]; [|reflexivity].
  unfold elem_min. now rewrite (Hu u eq_refl).
Qed.

Lemma elem_max_monotone (x y l : elem) :
  le_b x y = true -> le_b (elem_max x l) (elem_max y l) = true.
Proof.
  intro H. unfold elem_max.
  destruct (le_b l x) eqn:Lx, (le_b l y) eqn:Ly.
  - exact H.
  - rewrite (le_b_trans _ _ _ Lx H) in Ly. discriminate.
  - exact Ly.
  - apply le_b_refl.
Qed.

Lemma elem_min_monotone (x y u : elem) :
  le_b x y = true -> le_b (elem_min x u) (elem_min y u) = true.
Proof.
  intro H. unfold elem_min.
  destruct (le_b x u) eqn:Xu, (le_b y u) eqn:Yu.
  - exact H.
  - exact Xu.
  - rewrite (le_b_trans _ _ _ H Yu) in Xu. discriminate.
  - apply le_b_refl.
Qed.

Lemma pointwise_monotone (f : elem -> elem -> elem)
      (a a' b r r' : tensor elem) :
  (forall x y z, le_b x y = true -> le_b (f x z) (f y z) = true) ->
  tensor_le a a' ->
  pointwise f a b = ok r -> pointwise f a' b = ok r' -> tensor_le r r'.
Proof.
  intros M H. revert b r r'.
  induction H as [|x y a a' Hxy H IH]; intros [|z b] r r' P P';
    simpl in P, P'; try discriminate.
  - inversion P; inversion P'; subst. constructor.
  - destruct (pointwise f a b) as [e|t] eqn:T; simpl in P; [discriminate|].
    destruct (pointwise f a' b) as [e|t'] eqn:T'; simpl in P'; [discriminate|].
    inversion P; inversion P'; subst.
    constructor; [now apply M | now apply (IH b)].
Qed.

Lemma project_param_monotone (p q p' q' : tensor elem)
      (lb ub : option (tensor elem)) :
  tensor_le p q ->
  project_param p lb ub = ok p' -> project_param q lb ub = ok q' ->
  tensor_le p' q'.
Proof.
  intros H P Q. unfold project_param in P, Q.
  destruct (match lb with Some l => torch_max p l | None => ok p end)
    as [e|p1] eqn:P1; simpl in P; [discriminate|].
  destruct (match lb with Some l => torch_max q l | None => ok q end)
    as [e|q1] eqn:Q1; simpl in Q; [discriminate|].
  assert (H1 : tensor_le p1 q1).
  { destruct lb as [l|].
    - exact (pointwise_monotone elem_max p q l p1 q1
               elem_max_monotone H P1 Q1).
    - inversion P1; inversion Q1; subst. exact H. }
  destruct ub as [u|].
  - exact (pointwise_monotone elem_min p1 q1 u p' q'
             elem_min_monotone H1 P Q).
  - inversion P; inversion Q; subst. exact H1.
Qed.

Lemma project_monotone (ps qs ps' qs' : list (tensor elem))
      (lbs ubs : list (option (tensor elem))) :
  params_le ps qs ->
  project ps lbs ubs = ok ps' -> project qs lbs ubs = ok qs' ->
  params_le ps' qs'.
Proof.
  intro H. revert lbs ubs ps' qs'.
  induction H as [|p q ps qs Hpq H IH]; intros lbs ubs ps' qs' P Q.
  - simpl in P, Q. inversion P; inversion Q; subst. constructor.
  - destruct lbs as [|lb lbs]; [|destruct ubs as [|ub ubs]].
    + simpl in P, Q. inversion P; inversion Q; subst. now constructor.
    + simpl in P, Q. inversion P; inversion Q; subst. now constructor.
    + simpl in P, Q.
      destruct (project_param p lb ub) as [e|p1] eqn:P1; simpl in P;
        [discriminate|].
      destruct (project_param q lb ub) as [e|q1] eqn:Q1; simpl in Q;
        [discriminate|].
      destruct (project ps lbs ubs) as [e|ps1] eqn:P2; simpl in P;
        [discriminate|].
      destruct (project qs lbs ubs) as [e|qs1] eqn:Q2; simpl in Q;
        [discriminate|].
      inversion P; inversion Q; subst. constructor.
      * exact (project_param_monotone p q p1 q1 lb ub Hpq P1 Q1).
      * exact (IH lbs ubs ps1 qs1 P2 Q2).
Qed.

Lemma params_le_shapes (ps qs : list (tensor elem)) :
  params_le ps qs -> map (@length elem) ps = map (@length elem) qs.
Proof.
  induction 1 as [|p q ps qs Hpq H IH]; [reflexivity|].
  simpl. f_equal; [|exact IH]. exact (Forall2_length Hpq).
Qed.

Lemma project_param_idem (p p' : tensor elem)
      (lb ub : option (tensor elem)) :
  bound_fits p lb = true -> bound_fits p ub = true ->
  project_param p lb ub = ok p' -> project_param p' lb ub = ok p'.
Proof.
  intros Fl Fu P.
  destruct (project_param_spec p lb ub Fl Fu) as (q & Pq & L & N).
  assert (q = p') by (unfold ok in *; congruence). subst q.
  assert (Fl' : bound_fits p' lb = true).
  { destruct lb; simpl in *; [now rewrite L | reflexivity]. }
  assert (Fu' : bound_fits p' ub = true).
  { destruct ub; simpl in *; [now rewrite L | reflexivity]. }
  destruct (project_param_spec p' lb ub Fl' Fu') as (q & Pq' & L' & N').
  rewrite Pq'. f_equal. apply nth_error_ext. intro j.
  destruct (nth_error p' j) as [x'|] eqn:Hx'.
  - rewrite (N' j x' Hx').
    destruct (nth_error_same_length p' p j x' (eq_sym L) Hx') as [x Hx].
    rewrite (N j x Hx) in Hx'. inversion Hx' as [Hc].
    now rewrite clamp_spec_idem.
  - apply nth_error_None. apply nth_error_None in Hx'. lia.
Qed.

Lemma project_idem (ps ps' : list (tensor elem))
      (lbs ubs : list (option (tensor elem))) :
  well_shaped ps lbs ubs = true ->
  project ps lbs ubs = ok ps' -> project ps' lbs ubs = ok ps'.
Proof.
  revert lbs ubs ps'. induction ps as [|p ps IH]; intros lbs ubs ps' W P.
  - simpl in P. inversion P; subst. reflexivity.
  - destruct lbs as [|lb lbs]; [|destruct ubs as [|ub ubs]].
    + simpl in P. inversion P; subst. reflexivity.
    + simpl in P. inversion P; subst. reflexivity.
    + simpl in W. apply andb_prop in W as [W W3].
      apply andb_prop in W as [W1 W2]. simpl in P.
      destruct (project_param p lb ub) as [e|p1] eqn:P1; simpl in P;
        [discriminate|].
      destruct (project ps lbs ubs) as [e|ps1] eqn:P2; simpl in P;
        [discriminate|].
      inversion P; subst. simpl.
      rewrite (project_param_idem p p1 lb ub W1 W2 P1). simpl.
      now rewrite (IH lbs ubs ps1 W3 P2).
Qed.
End ClampFacts.

(** X4.  The projection step is idempotent on every well-shaped Type,
    feasible or not, and also when a bound pair is inverted:
    projecting the projected parameters once more returns them
    unchanged. *)
Theorem projection_is_idempotent
        {elem : Type} {E : Elem elem} (params : list (tensor elem))
        (lbs ubs : list (option (tensor elem))) :
  well_shaped params lbs ubs = true ->
  exists params',
    project params lbs ubs = ok params' /\
    project params' lbs ubs = ok params'.
Proof.
  intro W. destruct (project_spec params lbs ubs W) as (ps' & P & _).
  exists ps'. split; [exact P|]. exact (project_idem params ps' lbs ubs W P).
Qed.

Lemma projection_is_idempotent_witness :
  well_shaped [[1 # 2; 5 # 1]] [Some [1%Q; 0%Q]] [Some [0%Q; 1%Q]] = true /\
  exists params',
    project [[1 # 2; 5 # 1]] [Some [1%Q; 0%Q]] [Some [0%Q; 1%Q]]
    = ok params' /\
    project params' [Some [1%Q; 0%Q]] [Some [0%Q; 1%Q]] = ok params'.
Proof.
  split; [reflexivity|].
  apply (projection_is_idempotent
           [[1 # 2; 5 # 1]] [Some [1%Q; 0%Q]] [Some [0%Q; 1%Q]]).
  reflexivity.
Defined.

(** X5.  The projection step makes up no value and moves no element
    that is in range: every element it leaves is the element it
    replaces or one of the two bounds of that element, and an element
    that is at or above its lower bound and at or below its upper
    bound, where these exist, is left as it is, whatever the other
    elements are. *)
Theorem projection_moves_only_violations
        {elem : Type} {E : Elem elem} (params : list (tensor elem))
        (lbs ubs : list (option (tensor elem))) :
  well_shaped params lbs ubs = true ->
  length lbs = length params -> length ubs = length params ->
  exists params',
    project params lbs ubs = ok params' /\
    forall i p' j x',
      nth_error params' i = Some p' -> nth_error p' j = Some x' ->
      exists p lb ub x,
        nth_error params i = Some p /\ nth_error lbs i = Some lb /\
        nth_error ubs i = Some ub /\ nth_error p j = Some x /\
        (x' = x \/ bound_at lb j = Some x' \/ bound_at ub j = Some x') /\
        ((forall l, bound_at lb j = Some l -> le_b l x = true) ->
         (forall u, bound_at ub j = Some u -> le_b x u = true) ->
         x' = x).
Proof.
  intros W Ll Lu.
  destruct (project_spec params lbs ubs W) as (ps' & P & _).
  exists ps'. split; [exact P|].
  intros i p' j x' Hp' Hx'.
  destruct (project_elem params ps' lbs ubs W Ll Lu P i p' j x' Hp' Hx')
    as (p & lb & ub & x & Hp & Hlb & Hub & Hx & ->).
  exists p, lb, ub, x. repeat split; try assumption.
  - apply clamp_spec_choice.
  - apply clamp_spec_inside.
Qed.

Lemma projection_moves_only_violations_witness :
  well_shaped [[1 # 2; 5 # 1]] [Some [0%Q; 0%Q]] [Some [1%Q; 1%Q]] = true /\
  length [Some [0%Q; 0%Q]] = length [[1 # 2; 5 # 1]] /\
  length [Some [1%Q; 1%Q]] = length [[1 # 2; 5 # 1]] /\
  exists params',
    project [[1 # 2; 5 # 1]] [Some [0%Q; 0%Q]] [Some [1%Q; 1%Q]]
    = ok params' /\
    forall i p' j x',
      nth_error params' i = Some p' -> nth_error p' j = Some x' ->
      exists p lb ub x,
        nth_error [[1 # 2; 5 # 1]] i = Some p /\
        nth_error [Some [0%Q; 0%Q]] i = Some lb /\
        nth_error [Some [1%Q; 1%Q]] i = Some ub /\ nth_error p j = Some x /\
        (x' = x \/ bound_at lb j = Some x' \/ bound_at ub j = Some x') /\
        ((forall l, bound_at lb j = Some l -> le_b l x = true) ->
         (forall u, bound_at ub j = Some u -> le_b x u = true) ->
         x' = x).
Proof.
  split; [reflexivity|]. split; [reflexivity|]. split; [reflexivity|].
  apply (projection_moves_only_violations
           [[1 # 2; 5 # 1]] [Some [0%Q; 0%Q]] [Some [1%Q; 1%Q]]);
    reflexivity.
Defined.

(** X6.  The projection loop runs over the zip of the parameters with
    the two lists of bounds, so it ends with the shortest of them: a
    parameter at a position that one of the lists of bounds does not
    reach keeps its value, even if the other list has a bound for it;
    no parameter is added or dropped. *)
Theorem projection_stops_with_the_zip
        {elem : Type} {E : Elem elem} (params : list (tensor elem))
        (lbs ubs : list (option (tensor elem))) :
  well_shaped params lbs ubs = true ->
  exists params',
    project params lbs ubs = ok params' /\
    length params' = length params /\
    forall i, (length lbs <= i \/ length ubs <= i)%nat ->
              nth_error params' i = nth_error params i.
Proof.
  intro W. destruct (project_spec params lbs ubs W) as (ps' & P & M & _ & B).
  exists ps'. split; [exact P|]. split.
  - pose proof (f_equal (@length nat) M) as L.
    now rewrite !length_map in L.
  - intros i [H|H]; apply B; [left | right]; now apply nth_error_None.
Qed.

Lemma projection_stops_with_the_zip_witness :
  well_shaped [[5 # 1]; [7 # 1]] [Some [0%Q]; Some [0%Q]] [Some [1%Q]]
  = true /\
  exists params',
    project [[5 # 1]; [7 # 1]] [Some [0%Q]; Some [0%Q]] [Some [1%Q]]
    = ok params' /\
    length params' = length [[5 # 1]; [7 # 1]] /\
    forall i, (length [Some [0%Q]; Some [0%Q]] <= i \/
               length [Some [1%Q]] <= i)%nat ->
              nth_error params' i = nth_error [[5 # 1]; [7 # 1]] i.
Proof.
  split; [reflexivity|].
  apply (projection_stops_with_the_zip
           [[5 # 1]; [7 # 1]] [Some [0%Q]; Some [0%Q]] [Some [1%Q]]).
  reflexivity.
Defined.

(** X7.  The projection step keeps the order: of two well-shaped lists
    of parameters of which the first lies, element by element, at or
    below the second, the projections into the same bounds lie in the
    same order. *)
Theorem projection_is_monotone
        {elem : Type} {E : Elem elem} (params params2 : list (tensor elem))
        (lbs ubs : list (option (tensor elem))) :
  well_shaped params lbs ubs = true ->
  params_le params params2 ->
  exists projected projected2,
    project params lbs ubs = ok projected /\
    project params2 lbs ubs = ok projected2 /\
    params_le projected projected2.
Proof.
  intros W H.
  destruct (project_spec params lbs ubs W) as (ps' & P & _).
  assert (W2 : well_shaped params2 lbs ubs = true).
  { now rewrite <- (well_shaped_shapes _ _ lbs ubs (params_le_shapes _ _ H)). }
  destruct (project_spec params2 lbs ubs W2) as (qs' & Q & _).
  exists ps', qs'. split; [exact P|]. split; [exact Q|].
  exact (project_monotone params params2 ps' qs' lbs ubs H P Q).
Qed.

Lemma projection_is_monotone_witness :
  well_shaped [[-1 # 1; 1 # 2]] [Some [0%Q; 0%Q]] [Some [1%Q; 1%Q]] = true /\
  params_le [[-1 # 1; 1 # 2]] [[1 # 3; 5 # 1]] /\
  exists projected projected2,
    project [[-1 # 1; 1 # 2]] [Some [0%Q; 0%Q]] [Some [1%Q; 1%Q]]
    = ok projected /\
    project [[1 # 3; 5 # 1]] [Some [0%Q; 0%Q]] [Some [1%Q; 1%Q]]
    = ok projected2 /\
    params_le projected projected2.
Proof.
  assert (H : params_le [[-1 # 1; 1 # 2]] [[1 # 3; 5 # 1]]).
  { repeat constructor. }
  split; [reflexivity|]. split; [exact H|].
  apply (projection_is_monotone
           [[-1 # 1; 1 # 2]] [[1 # 3; 5 # 1]]
           [Some [0%Q; 0%Q]] [Some [1%Q; 1%Q]]); [reflexivity | exact H].
Defined.

(** ** More on the loop *)

Lemma firstn_seq_le (k len start : nat) :
  (k <= len)%nat -> firstn k (seq start len) = seq start k.
Proof.
  revert len start. induction k as [|k IH]; intros len start H;
    [reflexivity|].
  destruct len as [|len]; [lia|]. simpl. f_equal. apply IH. lia.
Qed.

Lemma py_range_prefix (n m : Z) :
  n <= m -> firstn (Z.to_nat n) (py_range m) = py_range n.
Proof.
  intro H. unfold py_range. rewrite firstn_map. f_equal.
  apply firstn_seq_le. lia.
Qed.

Section LoopFactsTwo.
Context {elem : Type} {E : Elem elem}.
Context {token image rng : Type}.
Variable torch_optim_Adam : @Adam elem.
Variable model : @CharacterModel elem token image rng.
Variables lbs ubs : list (option (tensor elem)).

Let world : Type := @world elem image rng torch_optim_Adam.

Lemma checkpoint_if_due (s : bool) (iv idx : Z) (w : world) :
  0 < iv -> 0 <= idx < 10 * iv ->
  exists a : world,
    (if idx mod iv =? 0 then checkpoint model s idx iv w else ok w) = ok a /\
    kept w a.
Proof.
  intros H X. destruct (idx mod iv =? 0).
  - destruct (checkpoint_ok torch_optim_Adam model s idx iv w H X) as [a C].
    exists a. split; [exact C|]. now apply checkpoint_kept in C.
  - exists w. split; [reflexivity | apply kept_refl].
Qed.

Lemma loop_body_alike (s1 s2 : bool) (iv1 iv2 idx1 idx2 : Z)
      (w1 w2 : world) :
  0 < iv1 -> 0 <= idx1 < 10 * iv1 -> 0 < iv2 -> 0 <= idx2 < 10 * iv2 ->
  kept w1 w2 ->
  same_training (loop_body model lbs ubs s1 iv1 idx1 w1)
                (loop_body model lbs ubs s2 iv2 idx2 w2).
Proof.
  intros H1 X1 H2 X2 K. unfold loop_body.
  rewrite !py_mod_ok by lia. cbn [bind ok].
  destruct (checkpoint_if_due s1 iv1 idx1 w1 H1 X1) as (a & Ha & Ka).
  destruct (checkpoint_if_due s2 iv2 idx2 w2 H2 X2) as (b & Hb & Kb).
  unfold world in Ha, Hb. rewrite Ha, Hb. cbn [bind ok].
  apply train_step_same.
  destruct K as (A & B & C), Ka as (A1 & B1 & C1), Kb as (A2 & B2 & C2).
  unfold kept. repeat split; congruence.
Qed.

Lemma for_each_alike (s1 s2 : bool) (iv1 iv2 : Z) (idxs : list Z)
      (w1 w2 : world) :
  in_run iv1 idxs -> in_run iv2 idxs -> kept w1 w2 ->
  same_training (for_each (loop_body model lbs ubs s1 iv1) idxs w1)
                (for_each (loop_body model lbs ubs s2 iv2) idxs w2).
Proof.
  revert w1 w2. induction idxs as [|idx idxs IH]; intros w1 w2 R1 R2 K; simpl.
  - exact K.
  - apply in_run_cons in R1 as (H1 & X1 & R1).
    apply in_run_cons in R2 as (H2 & X2 & R2).
    pose proof (loop_body_alike s1 s2 iv1 iv2 idx idx w1 w2 H1 X1 H2 X2 K)
      as S.
    destruct (loop_body model lbs ubs s1 iv1 idx w1) as [e1|a],
             (loop_body model lbs ubs s2 iv2 idx w2) as [e2|b];
      simpl in *; try contradiction; [exact S | now apply IH].
Qed.
End LoopFactsTwo.



(** X9.  A longer run extends a shorter one.  For one model, one Type,
    one learning rate and one tolerance, and two counts below 2^53 in
    absolute value (where the float64 steps of the rounding are exact)
    of which the first is the smaller, the trajectory of the first call is the
    beginning of the trajectory of the second, and the first call
    leaves the parameters the second call has after as many
    iterations; the diagnostics and the random generator of either
    call play no part. *)
Theorem longer_run_extends_shorter
        {elem : Type} {E : Elem elem} {token image rng : Type}
        (adam : @Adam elem) (model : @CharacterModel elem token image rng)
        (c : @CharacterType elem) (lr : elem) (nb_iter nb_iter2 : Z)
        (eps : elem) (show show2 : bool) (g g2 : rng) :
  well_shaped (parameters c) (lbs c eps) (ubs c eps) = true ->
  exact_count nb_iter -> exact_count nb_iter2 ->
  nb_iter <= nb_iter2 ->
  exists traj w traj2 w2 wk,
    optimize_type adam model c lr nb_iter eps show g = ok (traj, w) /\
    optimize_type adam model c lr nb_iter2 eps show2 g2 = ok (traj2, w2) /\
    (length traj <= length traj2)%nat /\
    traj = firstn (length traj) traj2 /\
    iterations adam model c lr nb_iter2 eps show2 g2 (length traj) = ok wk /\
    w_params wk = w_params w.
Proof.
  intros W _ _ H.
  assert (M : np_round nb_iter <= np_round nb_iter2).
  { rewrite !np_round_tens.
    pose proof (half_even_tens_monotone _ _ H). lia. }
  destruct (run_prefixes adam model c lr eps nb_iter show g W)
    as (w & R & L & _).
  destruct (run_prefixes adam model c lr eps nb_iter2 show2 g2 W)
    as (w2 & R2 & L2 & P2).
  destruct (P2 (Z.to_nat (np_round nb_iter)) ltac:(lia))
    as (wk & Ik & _ & Sk & _).
  exists (w_scores w), w, (w_scores w2), w2, wk.
  split; [exact R|]. split; [exact R2|]. rewrite L, L2.
  split; [lia|].
  pose proof Ik as Ik'. unfold iterations in Ik'.
  rewrite (py_range_prefix _ _ M) in Ik'.
  pose proof R as R'. unfold optimize_type in R'.
  destruct (for_each _ (py_range (np_round nb_iter)) (init_world adam c lr g))
    as [e|w'] eqn:F; simpl in R'; [discriminate|].
  assert (w' = w) by (unfold ok in R'; congruence). subst w'.
  assert (Rin : in_run (interval_of (np_round nb_iter2))
                       (py_range (np_round nb_iter))).
  { rewrite <- (py_range_prefix _ _ M). apply in_run_firstn.
    apply np_round_in_run. }
  assert (K : @kept elem image rng adam (init_world adam c lr g)
                    (init_world adam c lr g2)).
  { unfold kept. simpl. now repeat split. }
  pose proof (for_each_alike adam model (lbs c eps) (ubs c eps) show show2
                (interval_of (np_round nb_iter))
                (interval_of (np_round nb_iter2))
                (py_range (np_round nb_iter))
                (init_world adam c lr g) (init_world adam c lr g2)
                (np_round_in_run nb_iter) Rin K) as S.
  rewrite F, Ik' in S. simpl in S. destruct S as (A & _ & C).
  split; [now rewrite <- Sk, C|]. split; [exact Ik | exact A].
Qed.

Lemma longer_run_extends_shorter_witness :
  well_shaped (parameters (Scenario.interval_type (1 # 2) 0 1))
              (lbs (Scenario.interval_type (1 # 2) 0 1) (1 # 10000))
              (ubs (Scenario.interval_type (1 # 2) 0 1) (1 # 10000)) = true /\
  exact_count 10 /\ exact_count 30 /\
  10 <= 30 /\
  exists traj w traj2 w2 wk,
    optimize_type Scenario.sign_adam Scenario.first_model
                  (Scenario.interval_type (1 # 2) 0 1) (1 # 1000) 10
                  (1 # 10000) false 0%nat = ok (traj, w) /\
    optimize_type Scenario.sign_adam Scenario.first_model
                  (Scenario.interval_type (1 # 2) 0 1) (1 # 1000) 30
                  (1 # 10000) true 7%nat = ok (traj2, w2) /\
    (length traj <= length traj2)%nat /\
    traj = firstn (length traj) traj2 /\
    iterations Scenario.sign_adam Scenario.first_model
               (Scenario.interval_type (1 # 2) 0 1) (1 # 1000) 30
               (1 # 10000) true 7%nat (length traj) = ok wk /\
    w_params wk = w_params w.
Proof.
  split; [reflexivity|]. split; [unfold exact_count; lia|].
  split; [unfold exact_count; lia|]. split; [lia|].
  apply (longer_run_extends_shorter
           Scenario.sign_adam Scenario.first_model
           (Scenario.interval_type (1 # 2) 0 1) (1 # 1000) 10 30
           (1 # 10000) false true 0%nat 7%nat);
    [reflexivity | unfold exact_count; lia.. | lia].
Defined.

(** ** The figure *)

Section FigureFacts.
Context {elem : Type} {E : Elem elem}.
Context {token image rng : Type}.
Variable torch_optim_Adam : @Adam elem.
Variable model : @CharacterModel elem token image rng.
Variables lbs ubs : list (option (tensor elem)).
Variable interval : Z.

Let world : Type := @world elem image rng torch_optim_Adam.

Lemma show_token_cell (idx i : Z) (w w' : world) :
  0 < interval -> 0 <= idx < 10 * interval -> 0 <= i < 4 ->
  show_token model idx interval i w = ok w' ->
  cells_drawn w' = cells_drawn w ++ [(idx / interval, i)].
Proof.
  intros Hi Hx Hc. unfold show_token.
  destruct (sample_token model (w_params w) (w_rng w)) as [tok g1].
  destruct (sample_image model tok g1) as [img g2].
  rewrite py_floordiv_ok by lia. cbn [bind ok].
  rewrite axes_index_ok by (auto using checkpoint_row). cbn [bind ok].
  intro H. inversion H; subst. unfold cells_drawn. simpl.
  now rewrite map_app.
Qed.

Lemma show_tokens_cells (idx : Z) (cols : list Z) (w w' : world) :
  0 < interval -> 0 <= idx < 10 * interval ->
  (forall i, In i cols -> 0 <= i < 4) ->
  for_each (show_token model idx interval) cols w = ok w' ->
  cells_drawn w'
  = cells_drawn w ++ map (fun i => (idx / interval, i)) cols.
Proof.
  intros Hi Hx. revert w. induction cols as [|i cols IH]; intros w Hc H;
    simpl in H.
  - inversion H; subst. simpl. now rewrite app_nil_r.
  - destruct (show_token model idx interval i w) as [e|w1] eqn:S;
      simpl in H; [discriminate|].
    apply show_token_cell in S; [|assumption.. | apply Hc; now left].
    apply IH in H; [|intros j Hj; apply Hc; now right].
    rewrite H, S, <- app_assoc. reflexivity.
Qed.

Lemma checkpoint_cells (show : bool) (idx : Z) (w w' : world) :
  0 < interval -> 0 <= idx < 10 * interval ->
  checkpoint model show idx interval w = ok w' ->
  cells_drawn w'
  = cells_drawn w
    ++ (if show then map (fun i => (idx / interval, i)) (py_range 4)
        else []) /\
  (show = false -> w_rng w' = w_rng w).
Proof.
  intros Hi Hx. unfold checkpoint. destruct show.
  - destruct (for_each _ _ _) as [e|w1] eqn:F; cbn [bind]; [discriminate|].
    apply show_tokens_cells in F; [|assumption..|].
    + rewrite py_floordiv_ok by lia. cbn [bind ok].
      rewrite axes_index_ok by (auto using checkpoint_row; lia).
      cbn [bind ok]. intro H. inversion H; subst.
      split; [exact F | discriminate].
    + intros i Hin. apply py_range_In in Hin. lia.
  - intro H. inversion H; subst. unfold cells_drawn. simpl.
    now rewrite app_nil_r.
Qed.

Lemma train_step_frame (w w' : world) :
  train_step model lbs ubs w = ok w' ->
  w_images w' = w_images w /\ w_rng w' = w_rng w.
Proof.
  unfold train_step.
  destruct (adam_step _ _ _ _) as [ps st].
  destruct (project ps lbs ubs) as [e|ps']; simpl; [discriminate|].
  intro H. inversion H; subst. now split.
Qed.

Lemma loop_body_cells (show : bool) (idx : Z) (w w' : world) :
  0 < interval -> 0 <= idx < 10 * interval ->
  loop_body model lbs ubs show interval idx w = ok w' ->
  cells_drawn w'
  = cells_drawn w
    ++ (if show && (idx mod interval =? 0)
        then map (fun i => (idx / interval, i)) (py_range 4) else []) /\
  (show = false -> w_rng w' = w_rng w).
Proof.
  intros Hi Hx. unfold loop_body. rewrite py_mod_ok by lia. cbn [bind ok].
  destruct (idx mod interval =? 0).
  - destruct (checkpoint model show idx interval w) as [e|w1] eqn:C;
      cbn [bind]; [discriminate|].
    apply checkpoint_cells in C as (C & G); [|assumption..].
    intro T. apply train_step_frame in T as (I & R).
    unfold cells_drawn in *. rewrite I, C, andb_true_r.
    split; [reflexivity|]. intro S. rewrite R. now apply G.
  - cbn [bind ok]. intro T. apply train_step_frame in T as (I & R).
    unfold cells_drawn. rewrite I, andb_false_r, app_nil_r. now split.
Qed.

Lemma for_each_cells (show : bool) (idxs : list Z) (w w' : world) :
  in_run interval idxs ->
  for_each (loop_body model lbs ubs show interval) idxs w = ok w' ->
  cells_drawn w'
  = cells_drawn w
    ++ flat_map (fun idx => map (fun i => (idx / interval, i)) (py_range 4))
                (filter (fun idx => show && (idx mod interval =? 0)) idxs) /\
  (show = false -> w_rng w' = w_rng w).
Proof.
  revert w. induction idxs as [|idx idxs IH]; intros w R H; simpl in H.
  - inversion H; subst. simpl. now rewrite app_nil_r.
  - apply in_run_cons in R as (Hi & Hx & R).
    destruct (loop_body model lbs ubs show interval idx w) as [e|w1] eqn:B;
      simpl in H; [discriminate|].
    apply loop_body_cells in B as (B & G); [|assumption..].
    apply (IH _ R) in H as (H & G'). rewrite H, B. split.
    + cbn [filter]. destruct (show && (idx mod interval =? 0));
        cbn [flat_map]; now rewrite <- ?app_assoc, ?app_nil_r.
    + intro S. rewrite (G' S). now apply G.
Qed.
End FigureFacts.

(** X10.  When the count (a count below 2^53 in absolute value, where
    the float64 steps of lines 36 and 47 are exact) rounds to a
    positive multiple of ten and the Type is well-shaped, the call with the diagnostics draws an image
    in each of the 40 cells of the grid exactly once, row after row
    and column after column; the call without them draws nothing and
    leaves the random generator as it found it. *)
Theorem diagnostics_fill_the_grid
        {elem : Type} {E : Elem elem} {token image rng : Type}
        (adam : @Adam elem) (model : @CharacterModel elem token image rng)
        (c : @CharacterType elem) (lr : elem) (nb_iter : Z) (eps : elem)
        (show_examples : bool) (g : rng) :
  well_shaped (parameters c) (lbs c eps) (ubs c eps) = true ->
  exact_count nb_iter ->
  0 < np_round nb_iter ->
  exists traj w,
    optimize_type adam model c lr nb_iter eps show_examples g = ok (traj, w) /\
    cells_drawn w
    = (if show_examples
       then flat_map (fun r => map (fun i => (r, i)) (py_range 4))
                     (py_range 10)
       else []) /\
    (show_examples = false -> w_rng w = g).
Proof.
  intros W _ Hpos.
  pose proof (np_round_in_run nb_iter) as R.
  assert (Hi : 0 < interval_of (np_round nb_iter)).
  { rewrite np_round_tens in *. rewrite interval_of_tens. lia. }
  assert (HN : np_round nb_iter = interval_of (np_round nb_iter) * 10).
  { rewrite np_round_tens at 1. rewrite np_round_tens, interval_of_tens.
    reflexivity. }
  destruct (run_prefixes adam model c lr eps nb_iter show_examples g W)
    as (w & Run & _ & _).
  exists (w_scores w), w. split; [exact Run|].
  unfold optimize_type in Run.
  destruct (for_each _ _ _) as [e'|w'] eqn:F; simpl in Run; [discriminate|].
  assert (w' = w) by (unfold ok in Run; congruence). subst w'.
  destruct (for_each_cells adam model _ _ _ _ _ _ _ R F) as (C & G).
  split; [|exact G].
  rewrite C.
  replace (cells_drawn (init_world adam c lr g)) with (@nil (Z * Z))
    by reflexivity.
  rewrite app_nil_l.
  set (iv := interval_of (np_round nb_iter)) in *. clearbody iv.
  rewrite HN. destruct show_examples.
  - simpl andb. rewrite (checkpoints_of_run _ Hi).
    rewrite !flat_map_concat_map, map_map. f_equal.
    apply map_ext. intro j. now rewrite Z.div_mul by lia.
  - simpl andb. now rewrite filter_none.
Qed.

Lemma diagnostics_fill_the_grid_witness :
  well_shaped (parameters (Scenario.interval_type (3 # 2) 0 1))
              (lbs (Scenario.interval_type (3 # 2) 0 1) (1 # 10000))
              (ubs (Scenario.interval_type (3 # 2) 0 1) (1 # 10000)) = true /\
  exact_count 30 /\
  0 < np_round 30 /\
  exists traj w,
    optimize_type Scenario.sign_adam Scenario.first_model
                  (Scenario.interval_type (3 # 2) 0 1) (1 # 1000) 30
                  (1 # 10000) true 0%nat = ok (traj, w) /\
    cells_drawn w
    = flat_map (fun r => map (fun i => (r, i)) (py_range 4)) (py_range 10) /\
    (true = false -> w_rng w = 0%nat).
Proof.
  split; [reflexivity|]. split; [unfold exact_count; lia|].
  split; [reflexivity|].
  apply (diagnostics_fill_the_grid
           Scenario.sign_adam Scenario.first_model
           (Scenario.interval_type (3 # 2) 0 1) (1 # 1000) 30 (1 # 10000)
           true 0%nat); [reflexivity | unfold exact_count; lia | reflexivity].
Defined.

(** ** The script *)

(** What a run on a well-shaped Type prints and draws, for any count. *)
Lemma run_report
      {elem : Type} {E : Elem elem} {token image rng : Type}
      (adam : @Adam elem) (model : @CharacterModel elem token image rng)
      (c : @CharacterType elem) (lr : elem) (nb_iter : Z) (eps : elem)
      (show : bool) (g : rng) :
  well_shaped (parameters c) (lbs c eps) (ubs c eps) = true ->
  exists w,
    optimize_type adam model c lr nb_iter eps show g = ok (w_scores w, w) /\
    length (w_scores w) = Z.to_nat (np_round nb_iter) /\
    w_stdout w
    = (if 6 <=? nb_iter
       then map (fun j => j * interval_of (np_round nb_iter)) (py_range 10)
       else []) /\
    cells_drawn w
    = (if show && (6 <=? nb_iter)
       then flat_map (fun r => map (fun i => (r, i)) (py_range 4))
                     (py_range 10)
       else []).
Proof.
  intro W.
  destruct (run_prefixes adam model c lr eps nb_iter show g W)
    as (w & Run & L & _).
  exists w. split; [exact Run|]. split; [exact L|].
  pose proof (np_round_in_run nb_iter) as R.
  unfold optimize_type in Run.
  destruct (for_each _ _ _) as [e'|w'] eqn:F; simpl in Run; [discriminate|].
  assert (w' = w) by (unfold ok in Run; congruence). subst w'.
  destruct (Z.leb_spec 6 nb_iter) as [H|H].
  - assert (Hi : 0 < interval_of (np_round nb_iter)).
    { rewrite np_round_tens, interval_of_tens.
      pose proof (half_even_tens_high nb_iter H). lia. }
    assert (HN : np_round nb_iter = interval_of (np_round nb_iter) * 10).
    { rewrite np_round_tens at 1. rewrite np_round_tens, interval_of_tens.
      reflexivity. }
    pose proof (for_each_stdout adam model _ _ _ _ _ _ _ F) as O.
    destruct (for_each_cells adam model _ _ _ _ _ _ _ R F) as (C & _).
    replace (cells_drawn (init_world adam c lr g)) with (@nil (Z * Z)) in C
      by reflexivity.
    rewrite app_nil_l in C.
    replace (w_stdout (init_world adam c lr g)) with (@nil Z) in O
      by reflexivity.
    rewrite app_nil_l in O.
    set (iv := interval_of (np_round nb_iter)) in *. clearbody iv.
    rewrite HN in O, C. rewrite (checkpoints_of_run _ Hi) in O.
    split; [exact O|]. rewrite C. destruct show.
    + cbn [andb]. rewrite (checkpoints_of_run _ Hi).
      rewrite !flat_map_concat_map, map_map. f_equal.
      apply map_ext. intro j. now rewrite Z.div_mul by lia.
    + cbn [andb]. now rewrite filter_none.
  - assert (Z0 : Z.to_nat (np_round nb_iter) = 0%nat).
    { rewrite np_round_tens.
      pose proof (half_even_tens_low nb_iter ltac:(lia)). lia. }
    unfold py_range in F. rewrite Z0 in F. simpl in F.
    inversion F; subst. rewrite andb_false_r. now split.
Qed.

(** X11.  The script optimizes the Type it samples with the
    diagnostics on and with the learning rate, the count and the
    tolerance of the command line.  When the sampled Type is
    well-shaped and the count is below 2^53 in absolute value (where
    the float64 steps of lines 36 and 47 are exact) it ends normally; it prints the number of strokes and
    the numbers of sub-strokes, then, for a count of 6 or more, the
    ten checkpoint iterations and nothing more; it plots as many
    scores as the rounded count; and for a count of 6 or more every
    cell of the grid has been drawn, for a smaller one none. *)
Theorem main_prints_and_plots
        {elem : Type} {E : Elem elem} {token image rng : Type}
        (adam : @Adam elem) (model : @CharacterModel elem token image rng)
        (sample_type : option Z -> rng -> @SampledType elem * rng)
        (args : @Namespace elem) (g : rng) :
  well_shaped
    (parameters (s_type (fst (sample_type (arg_ns args) g))))
    (lbs (s_type (fst (sample_type (arg_ns args) g))) (arg_eps args))
    (ubs (s_type (fst (sample_type (arg_ns args) g))) (arg_eps args))
  = true ->
  exact_count (arg_nb_iter args) ->
  exists s,
    main adam model sample_type args g = ok s /\
    optimize_type adam model (s_type (fst (sample_type (arg_ns args) g)))
                  (arg_lr args) (arg_nb_iter args) (arg_eps args) true
                  (snd (sample_type (arg_ns args) g))
    = ok (plotted s, left_behind s) /\
    length (plotted s) = Z.to_nat (np_round (arg_nb_iter args)) /\
    printed s
    = NumStrokes (s_k (fst (sample_type (arg_ns args) g)))
      :: NumSubStrokes (s_nsub (fst (sample_type (arg_ns args) g)))
      :: (if 6 <=? arg_nb_iter args
          then map (fun j => Iteration
                               (j * interval_of
                                      (np_round (arg_nb_iter args))))
                   (py_range 10)
          else []) /\
    cells_drawn (left_behind s)
    = (if 6 <=? arg_nb_iter args
       then flat_map (fun r => map (fun i => (r, i)) (py_range 4))
                     (py_range 10)
       else []).
Proof.
  intros W _. unfold main.
  destruct (sample_type (arg_ns args) g) as [c g1]. simpl in W |- *.
  destruct (run_report adam model (s_type c) (arg_lr args)
              (arg_nb_iter args) (arg_eps args) true g1 W)
    as (w & R & L & O & C).
  rewrite R. simpl. eexists. split; [reflexivity|]. simpl.
  split; [reflexivity|]. split; [exact L|]. split; [|exact C].
  rewrite O. destruct (6 <=? arg_nb_iter args); [|reflexivity].
  now rewrite map_map.
Qed.

Lemma main_prints_and_plots_witness :
  well_shaped
    (parameters (s_type (fst (Scenario.sample_unit_type
                                (arg_ns Scenario.parser_defaults) 0%nat))))
    (lbs (s_type (fst (Scenario.sample_unit_type
                         (arg_ns Scenario.parser_defaults) 0%nat)))
         (arg_eps Scenario.parser_defaults))
    (ubs (s_type (fst (Scenario.sample_unit_type
                         (arg_ns Scenario.parser_defaults) 0%nat)))
         (arg_eps Scenario.parser_defaults))
  = true /\
  exact_count (arg_nb_iter Scenario.parser_defaults) /\
  exists s,
    main Scenario.sign_adam Scenario.first_model Scenario.sample_unit_type
         Scenario.parser_defaults 0%nat = ok s /\
    length (plotted s) = 1000%nat /\
    printed s
    = NumStrokes 1 :: NumSubStrokes [1]
      :: map (fun j => Iteration (j * 100)) (py_range 10).
Proof.
  assert (X : exact_count (arg_nb_iter Scenario.parser_defaults)).
  { unfold exact_count. simpl. lia. }
  split; [reflexivity|]. split; [exact X|].
  destruct (main_prints_and_plots
              Scenario.sign_adam Scenario.first_model
              Scenario.sample_unit_type Scenario.parser_defaults 0%nat
              eq_refl X) as (s & M & _ & L & P & _).
  exists s. split; [exact M|]. split; [exact L | exact P].
Defined.
